(** * download_minecraft_items.py: a shallow embedding and its properties

    The script lists the members of a wiki category, resolves an image for
    every member, optionally downloads it, and writes a JSON catalog.

    Modelling choices, fixed once for the whole development:
    - a Python [str] is a Rocq [string]; every [ascii] stands for one
      character with code point 0..255, so slicing counts characters and
      [lower] is Python's [str.lower] on that range;
    - the Python values the script handles all come out of [response.json()]
      or are built from such values, so one type [value] covers them;
      JSON numbers are integers here;
    - the network and the disk are an oracle [remote]; the files and the log
      are the explicit state [world] of a small exception-and-state monad;
    - [time.sleep] has no observable effect and is left out. *)

From Stdlib Require Import ZArith Ascii String List Lia.
From Stdlib Require Import DecimalString DecimalPos.
From stdpp Require Import base gmap strings list.

Import ListNotations.
Local Open Scope string_scope.
Local Open Scope list_scope.

(** ** Text: the [str] operations the script uses *)

Module Text.

Definition code (c : ascii) : N := N_of_ascii c.

(** The double quote character, code point 34. *)
Definition dquote : ascii := "034"%char.

(** [s.replace(old, new)] for one-character [old] and [new]. *)
Fixpoint replace (old new : ascii) (s : string) : string :=
  match s with
  | EmptyString => EmptyString
  | String c s' =>
      String (if Ascii.eqb c old then new else c) (replace old new s')
  end.

(** The slice [s[:n]]. *)
Fixpoint take (n : nat) (s : string) : string :=
  match n, s with
  | O, _ => EmptyString
  | _, EmptyString => EmptyString
  | S n', String c s' => String c (take n' s')
  end.

(** [c.lower()] on code points 0..255: A-Z and the Latin-1 capitals
    (0xC0-0xDE without the multiplication sign 0xD7) move up by 32. *)
Definition lower_char (c : ascii) : ascii :=
  let n := code c in
  if ((65 <=? n) && (n <=? 90))%N
     || ((192 <=? n) && (n <=? 222) && negb (n =? 215))%N
  then ascii_of_N (n + 32)
  else c.

Fixpoint lower (s : string) : string :=
  match s with
  | EmptyString => EmptyString
  | String c s' => String (lower_char c) (lower s')
  end.

(** [sub in s] for two strings: [sub] occurs in [s] as a substring. *)
Fixpoint contains (sub s : string) : bool :=
  String.prefix sub s
  || match s with
     | EmptyString => false
     | String _ s' => contains sub s'
     end.

(** [s.endswith(suf)]. *)
Definition endswith (s suf : string) : bool :=
  let n := String.length s in
  let k := String.length suf in
  (k <=? n)%nat && String.eqb (String.substring (n - k) k s) suf.

(** The characters of a string, as [for ch in s] yields them. *)
Definition chars (s : string) : list ascii := list_ascii_of_string s.

Definition str_of_char (c : ascii) : string := String c EmptyString.

End Text.

(** ** sanitize_filename *)

Definition invalid_chars : list ascii :=
  ["<"; ">"; ":"; Text.dquote; "/"; "\"; "|"; "?"; "*"]%char.

Definition sanitize_filename (filename : string) : string :=
  let filename :=
    fold_left (fun filename char => Text.replace char "_"%char filename)
              invalid_chars filename in
  Text.take 255 filename.

(** What the replacement loop does to one character. *)
Definition sanitize_char (c : ascii) : ascii :=
  fold_left (fun c' char => if Ascii.eqb c' char then "_"%char else c')
            invalid_chars c.

Fixpoint map_chars (f : ascii -> ascii) (s : string) : string :=
  match s with
  | EmptyString => EmptyString
  | String c s' => String (f c) (map_chars f s')
  end.

(** ** Python values and exceptions *)

#[local] Set Warnings "-register-all".

(** The values [response.json()] builds: [None], booleans, integers,
    strings, lists, and dicts with string keys in insertion order. *)
Inductive value : Type :=
| VNone
| VBool (b : bool)
| VInt (n : Z)
| VStr (s : string)
| VList (items : list value)
| VDict (entries : list (string * value)).

(** The exception classes that can be raised; all derive from [Exception],
    so every [except Exception] clause catches each of them. *)
Inductive exn : Type :=
| KeyError | TypeError | IndexError | AttributeError
| RequestException | JSONDecodeError | HTTPError | OSError.

Inductive res (A : Type) : Type :=
| Ok (a : A)
| Raise (e : exn).
Arguments Ok {A} a.
Arguments Raise {A} e.

Definition res_bind {A B} (r : res A) (k : A -> res B) : res B :=
  match r with
  | Ok a => k a
  | Raise e => Raise e
  end.

Notation "'let!' x ':=' r 'in' k" := (res_bind r (fun x => k))
  (at level 10, x name, r at level 200, k at level 200, only parsing).

Module Py.

Fixpoint lookup_key (k : string) (entries : list (string * value))
  : option value :=
  match entries with
  | [] => None
  | (k', v) :: rest => if String.eqb k k' then Some v else lookup_key k rest
  end.

Definition is_str (k : string) (v : value) : bool :=
  match v with
  | VStr s => String.eqb k s
  | _ => false
  end.

(** [k in c] for a string literal [k]. *)
Definition contains (k : string) (c : value) : res bool :=
  match c with
  | VDict entries =>
      Ok (match lookup_key k entries with Some _ => true | None => false end)
  | VList items => Ok (existsb (is_str k) items)
  | VStr s => Ok (Text.contains k s)
  | _ => Raise TypeError
  end.

(** [c[k]] for a string literal [k]. *)
Definition getitem (c : value) (k : string) : res value :=
  match c with
  | VDict entries =>
      match lookup_key k entries with
      | Some v => Ok v
      | None => Raise KeyError
      end
  | _ => Raise TypeError
  end.

(** [seq[i]] for an integer [i], negative indices counting from the end. *)
Definition index {A} (l : list A) (i : Z) : res A :=
  let n := Z.of_nat (List.length l) in
  let j := (if i <? 0 then i + n else i)%Z in
  if (j <? 0)%Z then Raise IndexError
  else match nth_error l (Z.to_nat j) with
       | Some a => Ok a
       | None => Raise IndexError
       end.

Definition int_of (k : value) : option Z :=
  match k with
  | VInt n => Some n
  | VBool b => Some (if b then 1 else 0)%Z
  | _ => None
  end.

(** [c[k]] for a key that is itself a value, as in [pages[page_id]]. *)
Definition getitem_value (c k : value) : res value :=
  match c with
  | VDict entries =>
      match k with
      | VStr s => getitem c s
      | VList _ | VDict _ => Raise TypeError
      | _ => Raise KeyError
      end
  | VList items =>
      match int_of k with
      | Some i => index items i
      | None => Raise TypeError
      end
  | VStr s =>
      match int_of k with
      | Some i =>
          res_bind (index (Text.chars s) i)
                   (fun ch => Ok (VStr (Text.str_of_char ch)))
      | None => Raise TypeError
      end
  | _ => Raise TypeError
  end.

(** The elements [for x in c] and [list.extend(c)] go through. *)
Definition iter (c : value) : res (list value) :=
  match c with
  | VDict entries => Ok (map (fun kv => VStr (fst kv)) entries)
  | VList items => Ok items
  | VStr s => Ok (map (fun ch => VStr (Text.str_of_char ch)) (Text.chars s))
  | _ => Raise TypeError
  end.

(** [v.lower()]. *)
Definition lower (v : value) : res string :=
  match v with
  | VStr s => Ok (Text.lower s)
  | _ => Raise AttributeError
  end.

(** Truth value, as [if v:] tests it. *)
Definition truthy (v : value) : bool :=
  match v with
  | VNone => false
  | VBool b => b
  | VInt n => negb (n =? 0)%Z
  | VStr s => negb (String.eqb s "")
  | VList items => match items with [] => false | _ => true end
  | VDict entries => match entries with [] => false | _ => true end
  end.

Definition is_none (v : value) : bool :=
  match v with
  | VNone => true
  | _ => false
  end.

End Py.

(** ** Paths: the [os.path] functions the script calls (POSIX flavour) *)

Module Path.

Definition slash : ascii := "/"%char.

(** [os.path.basename(p)]: what follows the last slash. *)
Fixpoint basename_from (acc p : string) : string :=
  match p with
  | EmptyString => acc
  | String c p' =>
      if Ascii.eqb c slash then basename_from p' p' else basename_from acc p'
  end.

Definition basename (p : string) : string := basename_from p p.

(** [p[:p.rfind('/') + 1]]: up to and including the last slash. *)
Fixpoint head (p : string) : string :=
  match p with
  | EmptyString => EmptyString
  | String c p' =>
      if Text.contains "/" p' then String c (head p')
      else if Ascii.eqb c slash then "/" else EmptyString
  end.

(** [s.rstrip('/')]. *)
Fixpoint rstrip (s : string) : string :=
  match s with
  | EmptyString => EmptyString
  | String c s' =>
      let r := rstrip s' in
      if String.eqb r "" && Ascii.eqb c slash then EmptyString
      else String c r
  end.

(** [os.path.dirname(p)]. *)
Definition dirname (p : string) : string :=
  let h := head p in
  if String.eqb (rstrip h) "" then h else rstrip h.

(** [os.path.join(a, b)]. *)
Definition join (a b : string) : string :=
  if String.prefix "/" b then b
  else if String.eqb a "" || Text.endswith a "/" then a +:+ b
  else a +:+ "/" +:+ b.

End Path.

(** ** Configuration *)

Definition SAVE_DIR : string := "scripts/minecraft_items".
Definition DOWNLOAD_FILES : bool := false.

(** The remaining constants set the address and page size of the requests,
    the size of the pool and the pause between two listing requests; what
    the functions below compute does not depend on them. *)
Definition API_BASE_URL : string := "https://minecraft.fandom.com/api.php".
Definition ITEMS_PER_REQUEST : nat := 50.
Definition MAX_WORKERS : nat := 10.
Definition DELAY_BETWEEN_REQUESTS : nat := 1.

(** ** The outside world *)

(** The three parameter dictionaries the script sends to the wiki API. *)
Inductive api_request : Type :=
| CategoryMembers (cmcontinue : option value)
| PageImages (titles : value)
| ImageInfo (titles : value).

(** [requests.get(API_BASE_URL, params)] followed by [response.json()]:
    the request fails, or the body is not JSON, or a value comes back. *)
Inductive api_reply : Type :=
| Unreachable
| NotJson
| Json (data : value).

(** [requests.get(url, timeout=10)]: no response (time-out, connection
    error, bad URL), or a response with a status code and a body. *)
Inductive http_reply : Type :=
| NoResponse
| Response (status : Z) (content : string).

(** What the disk does when a file is opened for writing and written:
    the open fails; the open succeeds (creating or truncating the file)
    and the write fails after [written] characters; or all is written.
    Asked about a directory, the same oracle tells whether the directory
    can be had: [OpenFails] when it neither exists nor can be made. *)
Inductive disk_reply : Type :=
| OpenFails
| WriteFails (written : nat)
| Written.

Record remote : Type := Remote {
  api : api_request -> api_reply;
  http_get : string -> http_reply;
  disk : string -> disk_reply
}.

(** ** Log records, one constructor per [logging] call of the script
    (the closing summary lines of [main] are one record) *)

Inductive level : Type := INFO | WARNING | ERROR.

Inductive message : Type :=
| MsgListError (e : exn)
| MsgImageError (title : value) (e : exn)
| MsgUrlError (image_title : value) (e : exn)
| MsgDownloaded (filename : string)
| MsgDownloadError (url : string) (e : exn)
| MsgCatalogSaved (json_path : string)
| MsgCatalogError (e : exn)
| MsgListing
| MsgFound (total : nat)
| MsgProcessed (name : value)
| MsgInfoCollected (name : value)
| MsgItemFailed (title : value)
| MsgSummary (total successful failed : nat).

(** ** State: the files on disk and the log written so far *)

(** The handlers of [logging.basicConfig] send every record to the console
    and append it to the file [LOG_FILE]; [log] is that sequence of
    records, and so the content of the log file. [files] holds all other
    files. *)
Definition LOG_FILE : string := "minecraft_items_download.log".

Record world : Type := World {
  files : gmap string string;
  log : list (level * message)
}.

Definition Run (A : Type) : Type := world -> res A * world.

Definition ret {A} (a : A) : Run A := fun w => (Ok a, w).

Definition raise {A} (e : exn) : Run A := fun w => (Raise e, w).

Definition bind {A B} (m : Run A) (k : A -> Run B) : Run B :=
  fun w =>
    match m w with
    | (Ok a, w') => k a w'
    | (Raise e, w') => (Raise e, w')
    end.

Definition lift {A} (r : res A) : Run A := fun w => (r, w).

(** [try: m  except Exception as e: handler e]. *)
Definition try_except {A} (m : Run A) (handler : exn -> Run A) : Run A :=
  fun w =>
    match m w with
    | (Ok a, w') => (Ok a, w')
    | (Raise e, w') => handler e w'
    end.

Notation "'let*' x ':=' m 'in' k" := (bind m (fun x => k))
  (at level 10, x name, m at level 200, k at level 200, only parsing).

Definition logging (lvl : level) (msg : message) : Run unit :=
  fun w => (Ok tt, {| files := files w; log := log w ++ [(lvl, msg)] |}).

Definition set_file (path content : string) (w : world) : world :=
  {| files := <[path := content]> (files w); log := log w |}.

(** [with open(path, 'w') as f: f.write(content)]. *)
Definition write_file (r : remote) (path content : string) : Run unit :=
  fun w =>
    match disk r path with
    | OpenFails => (Raise OSError, w)
    | WriteFails n => (Raise OSError, set_file path (Text.take n content) w)
    | Written => (Ok tt, set_file path content w)
    end.

Definition api_get (r : remote) (params : api_request) : res value :=
  match api r params with
  | Unreachable => Raise RequestException
  | NotJson => Raise JSONDecodeError
  | Json data => Ok data
  end.

(** [response.raise_for_status()] raises for the 4xx and 5xx codes. *)
Definition raise_for_status (status : Z) : res unit :=
  if ((400 <=? status) && (status <? 600))%Z then Raise HTTPError else Ok tt.

(** ** The item resolver: get_item_image and get_image_url *)

(** ['png' in image['title'].lower()], with its exceptions. *)
Definition title_has (sub : string) (image : value) : res bool :=
  let! t := Py.getitem image "title" in
  let! l := Py.lower t in
  Ok (Text.contains sub l).

(** The inner loop of [get_item_image]: [Some title] when a [return] was
    reached, [None] when the loop ran to its end. *)
Fixpoint scan_images (images : list value) : res (option value) :=
  match images with
  | [] => Ok None
  | image :: rest =>
      let! png := title_has "png" image in
      let! hit := (if png then Ok true else title_has "gif" image) in
      if hit then (let! t := Py.getitem image "title" in Ok (Some t))
      else scan_images rest
  end.

(** The outer loop of [get_item_image] over the keys of [pages]. *)
Fixpoint scan_pages (pages : value) (page_ids : list value)
  : res (option value) :=
  match page_ids with
  | [] => Ok None
  | page_id :: rest =>
      let! page := Py.getitem_value pages page_id in
      let! has := Py.contains "images" page in
      if has then
        let! imgs := Py.getitem page "images" in
        let! images := Py.iter imgs in
        let! found := scan_images images in
        match found with
        | Some t => Ok (Some t)
        | None => scan_pages pages rest
        end
      else scan_pages pages rest
  end.

(** The body of the [try] block of [get_item_image]. *)
Definition find_image (r : remote) (title : value) : res (option value) :=
  let! data := api_get r (PageImages title) in
  let! q := Py.getitem data "query" in
  let! pages := Py.getitem q "pages" in
  let! page_ids := Py.iter pages in
  scan_pages pages page_ids.

Definition or_none (o : option value) : value :=
  match o with
  | Some v => v
  | None => VNone
  end.

(** The loop of [get_image_url]: the first page with an ['imageinfo'] key
    decides. *)
Fixpoint scan_imageinfo (pages : value) (page_ids : list value)
  : res (option value) :=
  match page_ids with
  | [] => Ok None
  | page_id :: rest =>
      let! page := Py.getitem_value pages page_id in
      let! has := Py.contains "imageinfo" page in
      if has then
        let! info := Py.getitem page "imageinfo" in
        let! first := Py.getitem_value info (VInt 0) in
        let! url := Py.getitem first "url" in
        Ok (Some url)
      else scan_imageinfo pages rest
  end.

Definition find_url (r : remote) (image_title : value) : res (option value) :=
  let! data := api_get r (ImageInfo image_title) in
  let! q := Py.getitem data "query" in
  let! pages := Py.getitem q "pages" in
  let! page_ids := Py.iter pages in
  scan_imageinfo pages page_ids.

Definition get_item_image (r : remote) (item : value) : Run value :=
  let* title := lift (Py.getitem item "title") in
  try_except
    (let* found := lift (find_image r title) in ret (or_none found))
    (fun e => let* _ := logging ERROR (MsgImageError title e) in ret VNone).

Definition get_image_url (r : remote) (image_title : value) : Run value :=
  try_except
    (let* found := lift (find_url r image_title) in ret (or_none found))
    (fun e => let* _ := logging ERROR (MsgUrlError image_title e) in ret VNone).

(** ** The asset fetcher: download_image *)

Definition http_fetch (r : remote) (url : string) : res string :=
  match http_get r url with
  | NoResponse => Raise RequestException
  | Response status content =>
      res_bind (raise_for_status status) (fun _ => Ok content)
  end.

Definition download_image (r : remote) (url filename : string) : Run bool :=
  try_except
    (let* content := lift (http_fetch r url) in
     let* _ := write_file r filename content in
     let* _ := logging INFO (MsgDownloaded filename) in
     ret true)
    (fun e => let* _ := logging ERROR (MsgDownloadError url e) in ret false).

(** ** One task of the pool: process_item *)

Record item_info : Type := ItemInfo {
  name : value;
  imageUrl : value;
  localPath : value
}.

Definition decimal (n : Z) : string := NilZero.string_of_int (Z.to_int n).

Section Library.

(** Two library functions are taken as they are: [urllib.parse.unquote]
    on strings, and [repr] of a list or a dict inside an f-string. *)
Variable unquote : string -> string.
Variable repr : value -> string.

(** [unquote(v)] raises unless [v] is a string: its first test,
    ['%' not in v], is a [TypeError] on [None] and numbers; a list or a
    dict without ['%'] fails at [v.split], one with ['%'] in the regular
    expression. *)
Definition unquote_value (v : value) : res string :=
  match v with
  | VStr s => Ok (unquote s)
  | _ =>
      let! has_percent := Py.contains "%" v in
      if has_percent then Raise TypeError else Raise AttributeError
  end.

(** [f"{v}"]. *)
Definition format (v : value) : string :=
  match v with
  | VStr s => s
  | VNone => "None"
  | VBool true => "True"
  | VBool false => "False"
  | VInt n => decimal n
  | _ => repr v
  end.

Definition process_item (r : remote) (item : value) (download_files : bool)
  : Run (bool * item_info) :=
  let* image_title := get_item_image r item in
  let* title := lift (Py.getitem item "title") in
  let item_info :=
    {| name := title; imageUrl := VNone; localPath := VNone |} in
  if Py.truthy image_title then
    let* image_url := get_image_url r image_title in
    if Py.truthy image_url then
      let item_info :=
        {| name := title; imageUrl := image_url; localPath := VNone |} in
      if download_files then
        let* unquoted := lift (unquote_value image_url) in
        let filename :=
          sanitize_filename
            (format title +:+ "_" +:+ Path.basename unquoted) in
        let filepath := Path.join SAVE_DIR filename in
        let item_info :=
          {| name := title; imageUrl := image_url;
             localPath := VStr filepath |} in
        match image_url with
        | VStr url =>
            let* ok := download_image r url filepath in
            if ok then ret (true, item_info)
            else ret (false, item_info)
        | _ => raise TypeError (* not reached: [unquote] has raised *)
        end
      else
        ret (true, item_info)
    else ret (false, item_info)
  else ret (false, item_info).

End Library.

(** ** The paginated lister: get_item_list *)

(** Lines 62-63: the members one response adds to [items]. *)
Definition page_members (data : value) : res (list value) :=
  let! has_query := Py.contains "query" data in
  let! has_members :=
    (if has_query
     then let! q := Py.getitem data "query" in Py.contains "categorymembers" q
     else Ok false) in
  if has_members then
    let! q := Py.getitem data "query" in
    let! members := Py.getitem q "categorymembers" in
    Py.iter members
  else Ok [].

(** Lines 65-69: [Some token] to go on with, [None] for [break]. *)
Definition page_continue (data : value) : res (option value) :=
  let! has_continue := Py.contains "continue" data in
  let! has_token :=
    (if has_continue
     then let! c := Py.getitem data "continue" in Py.contains "cmcontinue" c
     else Ok false) in
  if has_token then
    let! c := Py.getitem data "continue" in
    let! token := Py.getitem c "cmcontinue" in
    Ok (Some token)
  else Ok None.

(** [if continue_token: params['cmcontinue'] = continue_token]. *)
Definition request_token (continue_token : value) : option value :=
  if Py.truthy continue_token then Some continue_token else None.

Definition list_failed (e : exn) (items : list value) : Run (option (list value)) :=
  let* _ := logging ERROR (MsgListError e) in ret (Some items).

(** The [while True] loop, one request per unit of [fuel]; [None] when the
    fuel is used up with the loop still running. *)
Fixpoint get_item_list_loop (r : remote) (fuel : nat)
    (items : list value) (continue_token : value)
  : Run (option (list value)) :=
  match fuel with
  | O => ret None
  | S fuel' =>
      match api_get r (CategoryMembers (request_token continue_token)) with
      | Raise e => list_failed e items
      | Ok data =>
          match page_members data with
          | Raise e => list_failed e items
          | Ok members =>
              let items := items ++ members in
              match page_continue data with
              | Raise e => list_failed e items
              | Ok None => ret (Some items)
              | Ok (Some token) => get_item_list_loop r fuel' items token
              end
          end
      end
  end.

Definition get_item_list (r : remote) (fuel : nat)
  : Run (option (list value)) :=
  get_item_list_loop r fuel [] VNone.

(** ** The catalog writer: save_items_json *)

Module Json.

Definition hex_digit (n : N) : ascii :=
  if (n <? 10)%N then ascii_of_N (48 + n) else ascii_of_N (87 + n).

(** [ESCAPE_DCT] of the [json] encoder with [ensure_ascii=False]. *)
Definition escape_char (c : ascii) : string :=
  let n := Text.code c in
  if (n =? 34)%N then "\" +:+ String Text.dquote ""
  else if (n =? 92)%N then "\\"
  else if (n =? 8)%N then "\b"
  else if (n =? 12)%N then "\f"
  else if (n =? 10)%N then "\n"
  else if (n =? 13)%N then "\r"
  else if (n =? 9)%N then "\t"
  else if (n <? 32)%N
       then "\u00" +:+ String (hex_digit (n / 16)) (String (hex_digit (n mod 16)) "")
  else String c "".

Fixpoint escape (s : string) : string :=
  match s with
  | EmptyString => EmptyString
  | String c s' => escape_char c +:+ escape s'
  end.

Definition encode_str (s : string) : string :=
  String Text.dquote (escape s) +:+ String Text.dquote "".

Definition newline : string := String "010"%char "".

Fixpoint spaces (n : nat) : string :=
  match n with
  | O => ""
  | S n' => String " "%char (spaces n')
  end.

(** A line break followed by the indentation of nesting depth [depth],
    two spaces a level. *)
Definition newline_indent (depth : nat) : string :=
  newline +:+ spaces (2 * depth).

(** [json.dumps(v, indent=2, ensure_ascii=False)] at nesting [depth]. *)
Fixpoint encode (depth : nat) (v : value) : string :=
  match v with
  | VNone => "null"
  | VBool true => "true"
  | VBool false => "false"
  | VInt n => decimal n
  | VStr s => encode_str s
  | VList [] => "[]"
  | VList (x :: xs) =>
      "[" +:+ newline_indent (S depth) +:+ encode (S depth) x
      +:+ (fix rest (l : list value) : string :=
             match l with
             | [] => ""
             | y :: l' =>
                 "," +:+ newline_indent (S depth) +:+ encode (S depth) y
                 +:+ rest l'
             end) xs
      +:+ newline_indent depth +:+ "]"
  | VDict [] => "{}"
  | VDict ((k, x) :: kvs) =>
      "{" +:+ newline_indent (S depth) +:+ encode_str k +:+ ": "
      +:+ encode (S depth) x
      +:+ (fix rest (l : list (string * value)) : string :=
             match l with
             | [] => ""
             | (k', y) :: l' =>
                 "," +:+ newline_indent (S depth) +:+ encode_str k' +:+ ": "
                 +:+ encode (S depth) y +:+ rest l'
             end) kvs
      +:+ newline_indent depth +:+ "}"
  end.

Definition dumps (v : value) : string := encode 0 v.

End Json.

(** The dict literal of [process_item], as [json.dump] sees it. *)
Definition info_value (info : item_info) : value :=
  VDict [("name", name info); ("imageUrl", imageUrl info);
         ("localPath", localPath info)].

Definition json_path : string :=
  Path.join (Path.dirname SAVE_DIR) "minecraft_items.json".

Definition successful_items (items_info : list item_info) : list item_info :=
  List.filter (fun item => negb (Py.is_none (imageUrl item))) items_info.

Definition save_items_json (r : remote) (items_info : list item_info)
  : Run unit :=
  let successful_items := successful_items items_info in
  try_except
    (let* _ := write_file r json_path
                 (Json.dumps (VList (map info_value successful_items))) in
     logging INFO (MsgCatalogSaved json_path))
    (fun e => logging ERROR (MsgCatalogError e)).

(** ** The worker pool and main *)

(** [ensure_dir]: nothing to do when the directory exists or can be made;
    [os.makedirs] raises when it cannot. Directories themselves are not
    part of [world]. *)
Definition ensure_dir (r : remote) (directory : string) : Run unit :=
  match disk r directory with
  | OpenFails => raise OSError
  | _ => ret tt
  end.

Section Orchestrator.

Variable unquote : string -> string.
Variable repr : value -> string.

(** A finished future, with the item it was submitted for
    ([future_to_item]): the task returned a pair or raised. *)
Definition future : Type := value * res (bool * item_info).

(** [as_completed]: the submitted items in the order their tasks finish,
    [order] listing positions in [items]. *)
Definition as_completed (items : list value) (order : list nat)
  : list value :=
  omap (fun i => items !! i) order.

(** Every submitted task runs to its end, whatever the others do: the
    executor joins all of them before the [with] block is left. Tasks
    share no state but the disk and the log, so their effects are taken
    one task after the other, in completion order. *)
Fixpoint run_tasks (r : remote) (download_files : bool)
    (items : list value) (w : world) : list future * world :=
  match items with
  | [] => ([], w)
  | item :: rest =>
      let '(outcome, w1) :=
        process_item unquote repr r item download_files w in
      let '(futures, w2) := run_tasks r download_files rest w1 in
      ((item, outcome) :: futures, w2)
  end.

Definition tally : Type := list item_info * nat * nat.

(** The [for future in as_completed(...)] loop; [future.result()] raises
    again what the task raised. *)
Fixpoint collect (download_files : bool) (futures : list future)
    (items_info : list item_info)
    (successful_downloads failed_downloads : nat) : Run tally :=
  match futures with
  | [] => ret (items_info, successful_downloads, failed_downloads)
  | (item, outcome) :: rest =>
      let* result := lift outcome in
      let items_info := items_info ++ [snd result] in
      if fst result then
        let* _ := logging INFO
                    (if download_files then MsgProcessed (name (snd result))
                     else MsgInfoCollected (name (snd result))) in
        collect download_files rest items_info
                (S successful_downloads) failed_downloads
      else
        let* title := lift (Py.getitem item "title") in
        let* _ := logging WARNING (MsgItemFailed title) in
        collect download_files rest items_info
                successful_downloads (S failed_downloads)
  end.

(** Lines 192-215 of [main]: dispatch every item, gather the results. *)
Definition process_all (r : remote) (items : list value)
    (download_files : bool) (order : list nat) : Run tally :=
  fun w =>
    let '(futures, w1) :=
      run_tasks r download_files (as_completed items order) w in
    collect download_files futures [] 0 0 w1.

(** [main]; [schedule n] is the completion order of [n] tasks. The result
    is [None] when the listing is still running after [fuel] requests,
    and else the final [items_info] and the two counters. *)
Definition main (r : remote) (fuel : nat) (schedule : nat -> list nat)
    (download_files : bool) : Run (option tally) :=
  let* _ := (if download_files then ensure_dir r SAVE_DIR else ret tt) in
  let* _ := logging INFO MsgListing in
  let* listed := get_item_list r fuel in
  match listed with
  | None => ret None
  | Some items =>
      let total_items := List.length items in
      let* _ := logging INFO (MsgFound total_items) in
      let* t := process_all r items download_files (schedule total_items) in
      let* _ := save_items_json r (fst (fst t)) in
      let* _ := logging INFO
                  (MsgSummary total_items (snd (fst t)) (snd t)) in
      ret (Some t)
  end.

End Orchestrator.

(** ** Vocabulary of the statements, and sample wikis *)

(** A character the replacement loop of [sanitize_filename] removes. *)
Definition is_invalid (c : ascii) : bool :=
  existsb (Ascii.eqb c) invalid_chars.

(** The selection as the specification words it: the first title whose
    extension, lower-cased, is [.png] or [.gif]. *)
Definition has_image_extension (t : string) : bool :=
  Text.endswith (Text.lower t) ".png" || Text.endswith (Text.lower t) ".gif".

Definition select_by_extension (titles : list string) : option string :=
  List.find has_image_extension titles.

(** The selection the source makes: the first title that, lower-cased,
    has [png] or [gif] somewhere in it. *)
Definition title_matches (t : string) : bool :=
  Text.contains "png" (Text.lower t) || Text.contains "gif" (Text.lower t).

Definition select_by_substring (titles : list string) : option string :=
  List.find title_matches titles.

(** A well-formed answer to the page-images query: pages keyed by page id,
    each with or without an ['images'] list of titled entries. *)
Definition image_entry (t : string) : value := VDict [("title", VStr t)].

Definition page_entry (images : option (list string)) : value :=
  VDict match images with
        | Some ts => [("images", VList (map image_entry ts))]
        | None => []
        end.

Definition pages_dict (pages : list (string * option (list string))) : value :=
  VDict (map (fun p => (fst p, page_entry (snd p))) pages).

Definition images_response (pages : list (string * option (list string)))
  : value :=
  VDict [("query", VDict [("pages", pages_dict pages)])].

Definition listed_titles (pages : list (string * option (list string)))
  : list string :=
  concat (map (fun p => match snd p with Some ts => ts | None => [] end) pages).

Definition str_or_none (o : option string) : value :=
  match o with
  | Some s => VStr s
  | None => VNone
  end.

(** A page whose only match by substring is a [.jpg] file, listed before a
    real [.png]. *)
Definition gift_pages : list (string * option (list string)) :=
  [("8421", Some ["File:Gift.jpg"; "File:Apple.png"])].

Definition gift_remote : remote := {|
  api := fun q =>
    match q with
    | PageImages (VStr "Apple") => Json (images_response gift_pages)
    | _ => Unreachable
    end;
  http_get := fun _ => NoResponse;
  disk := fun _ => Written
|}.

Definition apple : value := VDict [("pageid", VInt 8421); ("title", VStr "Apple")].

Definition empty_world : world := {| files := ∅; log := [] |}.

(** A server that answers 304 Not Modified with a body, and a disk that
    accepts the open and then fails the write. *)
Definition not_modified_remote : remote := {|
  api := fun _ => Unreachable;
  http_get := fun _ => Response 304 "cached";
  disk := fun _ => Written
|}.

Definition full_disk_remote : remote := {|
  api := fun _ => Unreachable;
  http_get := fun _ => Response 200 "PNG-bytes";
  disk := fun _ => WriteFails 3
|}.

Definition not_found_remote : remote := {|
  api := fun _ => Unreachable;
  http_get := fun _ => Response 404 "Not Found";
  disk := fun _ => Written
|}.

(** A well-formed answer to the image-info query carrying [url]. *)
Definition url_response (url : value) : value :=
  VDict [("query",
          VDict [("pages",
                  VDict [("-1",
                          VDict [("imageinfo",
                                  VList [VDict [("url", url)]])])])])].

Definition members_response (members : list value) : value :=
  VDict [("query", VDict [("categorymembers", VList members)])].

Definition apple_url : string :=
  "https://static.wikia.nocookie.net/minecraft/images/a/af/Apple.png".

(** A wiki whose category holds the one item [apple], with one image; the
    image-info query answers [url], every download gets [download]. *)
Definition apple_remote (url : value) (download : http_reply) : remote := {|
  api := fun q =>
    match q with
    | CategoryMembers None => Json (members_response [apple])
    | PageImages (VStr "Apple") =>
        Json (images_response [("8421", Some ["File:Apple.png"])])
    | ImageInfo (VStr "File:Apple.png") => Json (url_response url)
    | _ => Unreachable
    end;
  http_get := fun _ => download;
  disk := fun _ => Written
|}.

(** A listing as the wiki serves it, starting from [continue_token]:
    [pages] are the responses that carry a continuation token, each with
    the members it adds and the token it hands back; then either a last
    response without a token, adding [members] ([last = Some members]), or
    a request that fails in transport or in parsing ([last = None]). *)
Fixpoint paginated (r : remote) (continue_token : value)
    (pages : list (list value * value)) (last : option (list value)) : Prop :=
  let reply := api r (CategoryMembers (request_token continue_token)) in
  match pages with
  | (members, token) :: rest =>
      exists data,
        reply = Json data
        /\ page_members data = Ok members
        /\ page_continue data = Ok (Some token)
        /\ paginated r token rest last
  | [] =>
      match last with
      | Some members =>
          exists data,
            reply = Json data
            /\ page_members data = Ok members
            /\ page_continue data = Ok None
      | None => reply = Unreachable \/ reply = NotJson
      end
  end.

Definition last_members (last : option (list value)) : list value :=
  match last with
  | Some members => members
  | None => []
  end.

Definition bow : value := VDict [("pageid", VInt 8422); ("title", VStr "Bow")].
Definition cake : value := VDict [("pageid", VInt 8423); ("title", VStr "Cake")].

(** Three pages of one member each; the third request is answered by
    [third]. *)
Definition three_page_remote (third : api_reply) : remote := {|
  api := fun q =>
    match q with
    | CategoryMembers None =>
        Json (VDict [("continue", VDict [("cmcontinue", VStr "page|2")]);
                     ("query", VDict [("categorymembers", VList [apple])])])
    | CategoryMembers (Some (VStr "page|2")) =>
        Json (VDict [("continue", VDict [("cmcontinue", VStr "page|3")]);
                     ("query", VDict [("categorymembers", VList [bow])])])
    | CategoryMembers (Some (VStr "page|3")) => third
    | _ => Unreachable
    end;
  http_get := fun _ => NoResponse;
  disk := fun _ => Written
|}.

(** The world once [logging] has added a record. *)
Definition logged (lvl : level) (msg : message) (w : world) : world :=
  {| files := files w; log := log w ++ [(lvl, msg)] |}.

(** A wiki whose image-info answer has a number in the place of the URL. *)
Definition numeric_url_remote : remote := apple_remote (VInt 404) NoResponse.

(** An entry of the category listing that carries no title. *)
Definition untitled : value := VDict [("pageid", VInt 9); ("ns", VInt 0)].

Definition untitled_remote : remote := {|
  api := fun q =>
    match q with
    | CategoryMembers None => Json (members_response [apple; untitled])
    | PageImages (VStr "Apple") =>
        Json (images_response [("8421", Some ["File:Apple.png"])])
    | ImageInfo (VStr "File:Apple.png") => Json (url_response (VStr apple_url))
    | _ => Unreachable
    end;
  http_get := fun _ => NoResponse;
  disk := fun _ => Written
|}.

Definition sword : item_info :=
  {| name := VStr ("Ep" +:+ String "233"%char "e");
     imageUrl := VStr "https://wiki.example/Sword.png";
     localPath := VNone |}.

Definition unresolved : item_info :=
  {| name := VStr "Bow"; imageUrl := VNone; localPath := VNone |}.


Definition quoted (s : string) : string :=
  String Text.dquote s +:+ String Text.dquote "".

(** The text made of the lines [ls], a line feed between two lines. *)
Definition line_feed : string := String "010"%char "".

Fixpoint lines (ls : list string) : string :=
  match ls with
  | [] => ""
  | [l] => l
  | l :: rest => l +:+ line_feed +:+ lines rest
  end.

(** *** Reading the catalog back

    [JsonText.loads] reads a JSON document as a consumer of the catalog
    does. It follows the JSON grammar and owes nothing to the encoder
    above: white space between tokens is skipped, a string runs to its
    closing quote with the escapes of the grammar undone and raw control
    characters refused, a number is an integer. A [\u] escape is read
    when its code point lies in the range 0..255 of this development. *)

Module JsonText.




Definition hex_value (c : ascii) : option N :=
  let n := Text.code c in
  if ((48 <=? n) && (n <=? 57))%N then Some (n - 48)%N
  else if ((97 <=? n) && (n <=? 102))%N then Some (n - 87)%N
  else if ((65 <=? n) && (n <=? 70))%N then Some (n - 55)%N
  else None.

(** The character that four hexadecimal digits name. *)
Definition code_point (h1 h2 h3 h4 : ascii) : option ascii :=
  match hex_value h1, hex_value h2, hex_value h3, hex_value h4 with
  | Some a, Some b, Some c, Some d =>
      let n := (((a * 16 + b) * 16 + c) * 16 + d)%N in
      if (n <? 256)%N then Some (ascii_of_N n) else None
  | _, _, _, _ => None
  end.

(** The character that stands behind a backslash: quote, backslash and
    slash stand for themselves, [b f n r t] for control characters. *)
Definition unescape (c : ascii) : option ascii :=
  let n := Text.code c in
  if ((n =? 34) || (n =? 92) || (n =? 47))%N then Some c
  else if (n =? 98)%N then Some (ascii_of_N 8)
  else if (n =? 102)%N then Some (ascii_of_N 12)
  else if (n =? 110)%N then Some (ascii_of_N 10)
  else if (n =? 114)%N then Some (ascii_of_N 13)
  else if (n =? 116)%N then Some (ascii_of_N 9)
  else None.

(** The rest of a string literal behind its opening quote: the string it
    denotes, and the text behind the closing quote. *)
Fixpoint read_string (s : string) : option (string * string) :=
  match s with
  | EmptyString => None
  | String c s1 =>
      if (Text.code c =? 34)%N then Some (EmptyString, s1)
      else if (Text.code c =? 92)%N then
        match s1 with
        | EmptyString => None
        | String e s2 =>
            if (Text.code e =? 117)%N then
              match s2 with
              | String h1 (String h2 (String h3 (String h4 s3))) =>
                  match code_point h1 h2 h3 h4 with
                  | Some a =>
                      match read_string s3 with
                      | Some (body, rest) => Some (String a body, rest)
                      | None => None
                      end
                  | None => None
                  end
              | _ => None
              end
            else
              match unescape e with
              | Some a =>
                  match read_string s2 with
                  | Some (body, rest) => Some (String a body, rest)
                  | None => None
                  end
              | None => None
              end
        end
      else if (Text.code c <? 32)%N then None
      else
        match read_string s1 with
        | Some (body, rest) => Some (String c body, rest)
        | None => None
        end
  end.









End JsonText.

(** *** The layout of a catalog, line by line

    What "a pretty-printed JSON array" of results looks like for results
    whose fields are strings or [None]: one bracket a line, an object a
    result indented by two spaces, a key a line indented by four, in the
    order [name], [imageUrl], [localPath], a comma behind all but the
    last. A plain string needs no escape: it has no quote, no backslash
    and no control character; every character from 128 on is plain. *)










(** *** Notions of the round trip

    What the statements about reading a text back are made of. *)








(** ** Further vocabulary: image-info answers, served pages, samples *)

(** *** Shapes of the wiki's answers

    The answers are described by what they must hold, whatever else they
    hold beside: a dict is a list of entries with distinct keys. *)

(** The dict [entries] has distinct keys and holds [v] under [k]. *)
Definition maps_to (entries : list (string * value)) (k : string) (v : value)
  : Prop :=
  NoDup (map fst entries) /\ In (k, v) entries.

(** The dict [entries] has no key [k]. *)
Definition lacks_key (entries : list (string * value)) (k : string) : Prop :=
  ~ In k (map fst entries).

(** [data] is a dict whose ['query'] is a dict whose ['pages'] is the dict
    [pages], keyed by page id. *)
Definition answer_pages (data : value) (pages : list (string * value))
  : Prop :=
  exists top q,
    data = VDict top
    /\ maps_to top "query" (VDict q)
    /\ maps_to q "pages" (VDict pages)
    /\ NoDup (map fst pages).

(** An image entry: a dict whose ['title'] is the string [t]. *)
Definition titled_image (image : value) (t : string) : Prop :=
  exists entries, image = VDict entries /\ maps_to entries "title" (VStr t).

(** A page of the page-images answer: a dict whose ['images'] is a list of
    image entries with the titles [ts], or a dict without that key. *)
Definition page_with_images (page : value) (ts : option (list string))
  : Prop :=
  exists entries,
    page = VDict entries
    /\ match ts with
       | Some ts =>
           exists images,
             maps_to entries "images" (VList images)
             /\ Forall2 titled_image images ts
       | None => lacks_key entries "images"
       end.

(** All titles of the pages, in order. *)
Definition titles_of (tss : list (option (list string))) : list string :=
  concat (map (fun ts => match ts with Some ts => ts | None => [] end) tss).

(** A dict without the key [k]. *)
Definition dict_without (k : string) (v : value) : Prop :=
  exists entries, v = VDict entries /\ lacks_key entries k.

(** What the first page of [rest] says about the image, [rest] being the
    pages from the first one with an ['imageinfo'] key on: there is no such
    page; its list is empty; or its first entry holds [url]. *)
Inductive info_outcome : Type :=
| NoInfo
| EmptyInfo
| InfoUrl (url : value).

Definition first_info (rest : list (string * value)) (o : info_outcome)
  : Prop :=
  match o with
  | NoInfo => rest = []
  | EmptyInfo =>
      exists page_id entries more,
        rest = (page_id, VDict entries) :: more
        /\ maps_to entries "imageinfo" (VList [])
  | InfoUrl url =>
      exists page_id entries more first others,
        rest = (page_id, VDict entries) :: more
        /\ maps_to entries "imageinfo" (VList (VDict first :: others))
        /\ maps_to first "url" url
  end.

(** A response to the category-members query: a dict whose ['query'] holds
    the list [members] under ['categorymembers'], and which hands back the
    continuation [token] under ['continue']['cmcontinue'], or has no
    ['continue'] at all. *)
Definition members_page (data : value) (members : list value)
    (token : option value) : Prop :=
  exists top q,
    data = VDict top
    /\ maps_to top "query" (VDict q)
    /\ maps_to q "categorymembers" (VList members)
    /\ match token with
       | Some t =>
           exists c, maps_to top "continue" (VDict c)
                     /\ maps_to c "cmcontinue" t
       | None => lacks_key top "continue"
       end.

(** A listing as the wiki keeps it, in pages chained by their tokens: the
    request without [cmcontinue] gets the first page, the request with a
    page's token the page after it. [pages] are the pages with a token,
    then comes a last page without one ([last = Some members]), or a
    request that fails in transport or in parsing ([last = None]). *)
Fixpoint listing (r : remote) (request : option value)
    (pages : list (list value * value)) (last : option (list value)) : Prop :=
  let reply := api r (CategoryMembers request) in
  match pages with
  | (members, token) :: rest =>
      exists data,
        reply = Json data
        /\ members_page data members (Some token)
        /\ listing r (Some token) rest last
  | [] =>
      match last with
      | Some members =>
          exists data, reply = Json data /\ members_page data members None
      | None => reply = Unreachable \/ reply = NotJson
      end
  end.

(** A continuation token that [if continue_token:] lets through. *)
Definition sendable (token : value) : Prop :=
  exists s, token = VStr s /\ s <> "".

(** A wiki with two pages, the first of which hands back the empty string
    as its continuation token. *)
Definition empty_token_remote : remote := {|
  api := fun q =>
    match q with
    | CategoryMembers None =>
        Json (VDict [("continue", VDict [("cmcontinue", VStr "")]);
                     ("query", VDict [("categorymembers", VList [apple])])])
    | CategoryMembers (Some (VStr "")) =>
        Json (VDict [("query", VDict [("categorymembers", VList [bow])])])
    | _ => Unreachable
    end;
  http_get := fun _ => NoResponse;
  disk := fun _ => Written
|}.

(** Answers as the wiki gives them, with the keys the script does not
    read. *)
Definition wiki_image (t : string) : value :=
  VDict [("ns", VInt 6); ("title", VStr t)].

Definition wiki_pages (images : list value) : list (string * value) :=
  [("-1", VDict [("ns", VInt 0); ("missing", VStr "")]);
   ("8421",
    VDict [("pageid", VInt 8421); ("ns", VInt 0); ("title", VStr "Apple");
           ("images", VList images)])].

Definition wiki_answer (pages : list (string * value)) : value :=
  VDict [("batchcomplete", VStr ""); ("query", VDict [("pages", VDict pages)])].

Definition wiki_info_page (infos : list value) : value :=
  VDict [("pageid", VInt 9001); ("ns", VInt 6);
         ("title", VStr "File:Apple.png"); ("imagerepository", VStr "local");
         ("imageinfo", VList infos)].

Definition wiki_info_entry (url : string) : value :=
  VDict [("url", VStr url);
         ("descriptionurl", VStr "https://minecraft.fandom.com/wiki/File:Apple.png")].

Definition wiki_remote (images info : value) : remote := {|
  api := fun q =>
    match q with
    | PageImages _ => Json images
    | ImageInfo _ => Json info
    | CategoryMembers _ => Unreachable
    end;
  http_get := fun _ => NoResponse;
  disk := fun _ => Written
|}.


(** The path a task downloads to, for a file name [f]. *)
Definition in_save_dir (f : string) : string := SAVE_DIR +:+ "/" +:+ f.

(** ** Properties of sanitize_filename *)

Section SanitizeFacts.

Lemma replace_is_map old new s :
  Text.replace old new s
  = map_chars (fun c => if Ascii.eqb c old then new else c) s.
Proof. induction s as [|c s IH]; simpl; [reflexivity | now rewrite IH]. Qed.

Lemma map_chars_compose f g s :
  map_chars g (map_chars f s) = map_chars (fun c => g (f c)) s.
Proof. induction s as [|c s IH]; simpl; [reflexivity | now rewrite IH]. Qed.

Lemma map_chars_ext f g s :
  (forall c, f c = g c) -> map_chars f s = map_chars g s.
Proof.
  intros Hfg. induction s as [|c s IH]; simpl; [reflexivity|].
  now rewrite Hfg, IH.
Qed.

Lemma replace_loop_is_map (cs : list ascii) : forall (f : ascii -> ascii) s,
  fold_left (fun fname char => Text.replace char "_"%char fname) cs
            (map_chars f s)
  = map_chars
      (fun c => fold_left
                  (fun c' char => if Ascii.eqb c' char then "_"%char else c')
                  cs (f c)) s.
Proof.
  induction cs as [|ch cs IH]; intros f s; simpl; [reflexivity|].
  rewrite replace_is_map, map_chars_compose.
  now rewrite (IH (fun c => if Ascii.eqb (f c) ch then "_"%char else f c)).
Qed.

Lemma map_chars_id s : map_chars (fun c => c) s = s.
Proof. induction s as [|c s IH]; simpl; [reflexivity | now rewrite IH]. Qed.

Lemma sanitize_filename_map s :
  sanitize_filename s = Text.take 255 (map_chars sanitize_char s).
Proof.
  unfold sanitize_filename.
  rewrite <- (map_chars_id s) at 1.
  now rewrite replace_loop_is_map.
Qed.

Lemma take_map_chars f n : forall s,
  Text.take n (map_chars f s) = map_chars f (Text.take n s).
Proof.
  induction n as [|n IH]; intros [|c s]; simpl; try reflexivity.
  now rewrite IH.
Qed.

Lemma take_take n : forall s, Text.take n (Text.take n s) = Text.take n s.
Proof.
  induction n as [|n IH]; intros [|c s]; simpl; try reflexivity.
  now rewrite IH.
Qed.

Lemma take_length n : forall s, (String.length (Text.take n s) <= n)%nat.
Proof.
  induction n as [|n IH]; intros [|c s]; simpl; try lia.
  specialize (IH s). lia.
Qed.

Lemma sanitize_char_idem c : sanitize_char (sanitize_char c) = sanitize_char c.
Proof. destruct c as [[] [] [] [] [] [] [] []]; reflexivity. Qed.

Lemma sanitize_char_valid c : is_invalid (sanitize_char c) = false.
Proof. destruct c as [[] [] [] [] [] [] [] []]; reflexivity. Qed.

Lemma is_invalid_In c : In c invalid_chars -> is_invalid c = true.
Proof.
  intros Hin. unfold is_invalid. apply existsb_exists.
  exists c. split; [exact Hin | apply Ascii.eqb_refl].
Qed.

Lemma chars_take_incl n : forall s c,
  In c (Text.chars (Text.take n s)) -> In c (Text.chars s).
Proof.
  induction n as [|n IH]; intros [|a s] c; simpl; try tauto.
  intros [Heq | Hin]; [now left | right; now apply IH].
Qed.

Lemma chars_map_chars f s c :
  In c (Text.chars (map_chars f s)) -> exists a, c = f a.
Proof.
  induction s as [|a s IH]; simpl; [tauto|].
  intros [Heq | Hin]; [now exists a | now apply IH].
Qed.

End SanitizeFacts.

(** C10. [sanitize_filename] is idempotent: sanitising a sanitised name
    changes nothing, because the result holds none of the replaced
    characters and is at most 255 characters long. *)
Theorem sanitize_filename_idempotent (s : string) :
  sanitize_filename (sanitize_filename s) = sanitize_filename s
  /\ (forall c, In c invalid_chars ->
                ~ In c (Text.chars (sanitize_filename s)))
  /\ (String.length (sanitize_filename s) <= 255)%nat.
Proof.
  repeat split.
  - rewrite !sanitize_filename_map.
    rewrite <- take_map_chars, take_take, take_map_chars.
    rewrite <- take_map_chars, map_chars_compose.
    f_equal. apply map_chars_ext, sanitize_char_idem.
  - intros c Hinv Hin. rewrite sanitize_filename_map in Hin.
    apply chars_take_incl, chars_map_chars in Hin as [a ->].
    apply is_invalid_In in Hinv. rewrite sanitize_char_valid in Hinv.
    discriminate.
  - rewrite sanitize_filename_map. apply take_length.
Qed.

(** ** Properties of the item resolver *)

Section ResolverFacts.

Lemma find_app_first {A} (f : A -> bool) (l1 l2 : list A) :
  List.find f (l1 ++ l2)
  = match List.find f l1 with
    | Some x => Some x
    | None => List.find f l2
    end.
Proof.
  induction l1 as [|a l1 IH]; simpl; [reflexivity|].
  destruct (f a); [reflexivity | exact IH].
Qed.

Lemma lookup_key_maps_to entries k v :
  maps_to entries k v -> Py.lookup_key k entries = Some v.
Proof.
  intros [Hnd Hin]. induction entries as [|[k' v'] entries IH];
    [destruct Hin|].
  apply NoDup_cons in Hnd as [Hnotin Hnd].
  cbn [Py.lookup_key]. destruct (String.eqb_spec k k') as [->|Hne].
  - destruct Hin as [Heq | Hin]; [now inversion Heq|].
    exfalso. apply Hnotin, list_elem_of_In.
    apply (in_map fst) in Hin. exact Hin.
  - destruct Hin as [Heq | Hin]; [inversion Heq; congruence|].
    now apply IH.
Qed.

Lemma lookup_key_lacks entries k :
  lacks_key entries k -> Py.lookup_key k entries = None.
Proof.
  unfold lacks_key. induction entries as [|[k' v'] entries IH]; intros H;
    [reflexivity|].
  cbn [Py.lookup_key]. destruct (String.eqb_spec k k') as [->|Hne].
  - exfalso. apply H. now left.
  - apply IH. intros Hin. apply H. now right.
Qed.

Lemma getitem_maps_to entries k v :
  maps_to entries k v -> Py.getitem (VDict entries) k = Ok v.
Proof.
  intros H. unfold Py.getitem. now rewrite (lookup_key_maps_to _ _ _ H).
Qed.

Lemma contains_maps_to entries k v :
  maps_to entries k v -> Py.contains k (VDict entries) = Ok true.
Proof.
  intros H. unfold Py.contains. now rewrite (lookup_key_maps_to _ _ _ H).
Qed.

Lemma contains_lacks entries k :
  lacks_key entries k -> Py.contains k (VDict entries) = Ok false.
Proof.
  intros H. unfold Py.contains. now rewrite (lookup_key_lacks _ _ H).
Qed.

(** The pages of an answer, as the two lookups and the iteration of the
    resolver find them. *)
Lemma answer_pages_found data pages :
  answer_pages data pages ->
  exists q,
    Py.getitem data "query" = Ok q
    /\ Py.getitem q "pages" = Ok (VDict pages)
    /\ Py.iter (VDict pages) = Ok (map (fun p => VStr (fst p)) pages).
Proof.
  intros (top & q & -> & Hq & Hp & _). exists (VDict q).
  rewrite (getitem_maps_to _ _ _ Hq), (getitem_maps_to _ _ _ Hp).
  repeat split.
Qed.

Lemma page_found (all : list (string * value)) k page :
  NoDup (map fst all) -> In (k, page) all ->
  Py.getitem_value (VDict all) (VStr k) = Ok page.
Proof.
  intros Hnd Hin. cbn [Py.getitem_value].
  now apply getitem_maps_to.
Qed.

(** A run of titled images in front of [tail]: the first match among them
    is returned, and only without one the search goes on into [tail]. *)
Lemma scan_images_titled images ts : forall tail,
  Forall2 titled_image images ts ->
  scan_images (images ++ tail)
  = match select_by_substring ts with
    | Some t => Ok (Some (VStr t))
    | None => scan_images tail
    end.
Proof.
  intros tail HF. induction HF as [|image t images ts Himg _ IH];
    [reflexivity|].
  destruct Himg as (entries & -> & Ht).
  cbn [app scan_images select_by_substring List.find].
  unfold title_has. rewrite (getitem_maps_to _ _ _ Ht).
  cbn [res_bind Py.lower]. unfold title_matches at 1.
  destruct (Text.contains "png" (Text.lower t)); cbn [res_bind orb];
    [reflexivity|].
  destruct (Text.contains "gif" (Text.lower t)); cbn [res_bind];
    [reflexivity | exact IH].
Qed.

(** The same for a run of pages in front of the page ids [tail]. *)
Lemma scan_pages_titled (all before : list (string * value)) tss :
  forall tail,
  NoDup (map fst all) -> incl before all ->
  Forall2 page_with_images (map snd before) tss ->
  scan_pages (VDict all) (map (fun p => VStr (fst p)) before ++ tail)
  = match select_by_substring (titles_of tss) with
    | Some t => Ok (Some (VStr t))
    | None => scan_pages (VDict all) tail
    end.
Proof.
  intros tail Hnd. revert tss.
  induction before as [|[k page] before IH]; intros tss Hincl HF;
    cbn [map] in HF.
  - inversion HF. reflexivity.
  - apply Forall2_cons_inv_l in HF as (ts & tss' & Hpage & HF & ->).
    assert (Hin : In (k, page) all) by (apply Hincl; now left).
    assert (Hrest : incl before all) by (intros x Hx; apply Hincl; now right).
    cbn [map app scan_pages fst].
    rewrite (page_found all k page Hnd Hin). cbn [res_bind].
    cbn [snd] in Hpage. destruct Hpage as (entries & -> & Hshape).
    destruct ts as [ts|].
    + change (titles_of (Some ts :: tss')) with (ts ++ titles_of tss').
      unfold select_by_substring at 1. rewrite find_app_first.
      fold (select_by_substring ts).
      fold (select_by_substring (titles_of tss')).
      destruct Hshape as (images & Himages & Htitled).
      rewrite (contains_maps_to _ _ _ Himages). cbn [res_bind].
      rewrite (getitem_maps_to _ _ _ Himages). cbn [res_bind Py.iter].
      rewrite <- (app_nil_r images).
      rewrite (scan_images_titled images ts [] Htitled).
      destruct (select_by_substring ts); cbn [res_bind scan_images];
        [reflexivity|].
      now apply IH.
    + change (titles_of (None :: tss')) with (titles_of tss').
      rewrite (contains_lacks _ _ Hshape). cbn [res_bind].
      now apply IH.
Qed.

End ResolverFacts.

(** C1, as stated, fails: with images [File:Gift.jpg] and [File:Apple.png]
    the first image with an accepted extension is [File:Apple.png], yet
    [get_item_image] returns [File:Gift.jpg], whose title merely contains
    [gif]. *)
Lemma get_item_image_not_by_extension :
  ~ (forall (r : remote) (item title : value)
            (pages : list (string * option (list string))) (w : world),
        Py.getitem item "title" = Ok title ->
        api r (PageImages title) = Json (images_response pages) ->
        NoDup (map fst pages) ->
        fst (get_item_image r item w)
        = Ok (str_or_none (select_by_extension (listed_titles pages)))).
Proof.
  intros H.
  specialize (H gift_remote apple (VStr "Apple") gift_pages empty_world
                eq_refl eq_refl).
  assert (Hnd : NoDup (map fst gift_pages))
    by (apply NoDup_cons; split; [apply not_elem_of_nil | apply NoDup_nil_2]).
  specialize (H Hnd). vm_compute in H. discriminate H.
Qed.

(** C1, amended. Whenever the answer to the page-images query holds, among
    whatever other keys, a ['query'] with ['pages'] keyed by page id, each
    page with or without an ['images'] list of titled entries,
    [get_item_image] returns the first image title, in page order, that
    contains [png] or [gif] once lower-cased, wherever in the title; it
    returns [None] when no title does. Nothing is written or logged. *)
Theorem get_item_image_first_substring_match
    (r : remote) (item title data : value)
    (pages : list (string * value)) (tss : list (option (list string)))
    (w : world) :
  Py.getitem item "title" = Ok title ->
  api r (PageImages title) = Json data ->
  answer_pages data pages ->
  Forall2 page_with_images (map snd pages) tss ->
  get_item_image r item w
  = (Ok (str_or_none (select_by_substring (titles_of tss))), w).
Proof.
  intros Htitle Hapi Hanswer Hpages.
  destruct (answer_pages_found data pages Hanswer) as (q & Hq & Hp & Hiter).
  assert (Hnd : NoDup (map fst pages))
    by (destruct Hanswer as (top & q' & _ & _ & _ & Hnd); exact Hnd).
  unfold get_item_image, bind, lift, try_except, find_image, api_get.
  rewrite Htitle, Hapi. cbn [res_bind]. rewrite Hq. cbn [res_bind].
  rewrite Hp. cbn [res_bind]. rewrite Hiter. cbn [res_bind].
  rewrite <- (app_nil_r (map _ pages)).
  rewrite (scan_pages_titled pages pages tss [] Hnd (incl_refl _) Hpages).
  unfold ret.
  now destruct (select_by_substring (titles_of tss)).
Qed.

(** Closing the side conditions of a concrete answer. *)
Ltac distinct_keys := apply (bool_decide_unpack _); vm_compute; exact I.
Ltac holds_key := split; [distinct_keys | cbn; auto 10].
Ltac concrete_answer :=
  eexists _, _; split; [reflexivity|];
  split; [holds_key|]; split; [holds_key | distinct_keys].
Ltac concrete_image :=
  eexists; split; [reflexivity | holds_key].

Lemma get_item_image_first_substring_match_witness :
  get_item_image
    (wiki_remote
       (wiki_answer
          (wiki_pages
             [wiki_image "File:Gift.jpg"; wiki_image "File:Apple.png"]))
       VNone)
    apple empty_world
  = (Ok (VStr "File:Gift.jpg"), empty_world).
Proof.
  apply (get_item_image_first_substring_match _ apple (VStr "Apple")
           (wiki_answer
              (wiki_pages
                 [wiki_image "File:Gift.jpg"; wiki_image "File:Apple.png"]))
           (wiki_pages
              [wiki_image "File:Gift.jpg"; wiki_image "File:Apple.png"])
           [None; Some ["File:Gift.jpg"; "File:Apple.png"]] empty_world).
  - reflexivity.
  - reflexivity.
  - concrete_answer.
  - repeat constructor.
    + eexists. split; [reflexivity|]. unfold lacks_key. cbn.
      intuition discriminate.
    + eexists. split; [reflexivity|]. eexists. split; [holds_key|].
      repeat constructor; concrete_image.
Defined.

(** ** Properties of the asset fetcher *)

Section FetcherFacts.

Lemma download_image_no_response r url path w :
  http_get r url = NoResponse ->
  download_image r url path w
  = (Ok false,
     {| files := files w;
        log := log w ++ [(ERROR, MsgDownloadError url RequestException)] |}).
Proof.
  intros H. unfold download_image, try_except, bind, lift, http_fetch.
  now rewrite H.
Qed.

Lemma download_image_error_status r url path w status content :
  http_get r url = Response status content ->
  (400 <= status < 600)%Z ->
  download_image r url path w
  = (Ok false,
     {| files := files w;
        log := log w ++ [(ERROR, MsgDownloadError url HTTPError)] |}).
Proof.
  intros H Hst. unfold download_image, try_except, bind, lift, http_fetch.
  rewrite H. unfold raise_for_status.
  replace ((400 <=? status)%Z && (status <? 600)%Z) with true; [reflexivity|].
  symmetry. apply andb_true_iff. split; [apply Z.leb_le | apply Z.ltb_lt]; lia.
Qed.

Lemma http_fetch_accepts r url status content :
  http_get r url = Response status content ->
  ~ (400 <= status < 600)%Z ->
  http_fetch r url = Ok content.
Proof.
  intros H Hst. unfold http_fetch. rewrite H. unfold raise_for_status.
  replace ((400 <=? status)%Z && (status <? 600)%Z) with false; [reflexivity|].
  symmetry. apply andb_false_iff.
  destruct (Z.leb_spec 400 status); [right; apply Z.ltb_ge; lia | now left].
Qed.

Lemma download_image_open_fails r url path w status content :
  http_get r url = Response status content ->
  ~ (400 <= status < 600)%Z ->
  disk r path = OpenFails ->
  download_image r url path w
  = (Ok false,
     {| files := files w;
        log := log w ++ [(ERROR, MsgDownloadError url OSError)] |}).
Proof.
  intros H Hst Hd. unfold download_image, try_except, bind, lift.
  rewrite (http_fetch_accepts r url status content H Hst).
  unfold write_file. now rewrite Hd.
Qed.

Lemma download_image_write_fails r url path w status content n :
  http_get r url = Response status content ->
  ~ (400 <= status < 600)%Z ->
  disk r path = WriteFails n ->
  download_image r url path w
  = (Ok false,
     {| files := <[path := Text.take n content]> (files w);
        log := log w ++ [(ERROR, MsgDownloadError url OSError)] |}).
Proof.
  intros H Hst Hd. unfold download_image, try_except, bind, lift.
  rewrite (http_fetch_accepts r url status content H Hst).
  unfold write_file. now rewrite Hd.
Qed.

Lemma download_image_written r url path w status content :
  http_get r url = Response status content ->
  ~ (400 <= status < 600)%Z ->
  disk r path = Written ->
  download_image r url path w
  = (Ok true,
     {| files := <[path := content]> (files w);
        log := log w ++ [(INFO, MsgDownloaded path)] |}).
Proof.
  intros H Hst Hd. unfold download_image, try_except, bind, lift.
  rewrite (http_fetch_accepts r url status content H Hst).
  unfold write_file. now rewrite Hd.
Qed.

Lemma download_image_returns r url path w :
  exists (b : bool) (w' : world), download_image r url path w = (Ok b, w').
Proof.
  destruct (http_get r url) as [|status content] eqn:H.
  - rewrite (download_image_no_response _ _ _ _ H). eauto.
  - destruct (decide (400 <= status < 600)%Z) as [Hst|Hst].
    + rewrite (download_image_error_status _ _ _ _ _ _ H Hst). eauto.
    + destruct (disk r path) as [|n|] eqn:Hd.
      * rewrite (download_image_open_fails _ _ _ _ _ _ H Hst Hd). eauto.
      * rewrite (download_image_write_fails _ _ _ _ _ _ _ H Hst Hd). eauto.
      * rewrite (download_image_written _ _ _ _ _ _ H Hst Hd). eauto.
Qed.

End FetcherFacts.

(** C6, as stated, fails twice over. A non-2xx status outside 400..599
    (here 304) is no failure: the body is written and [True] returned. And
    an I/O error that strikes after the file was opened leaves a file at
    the destination. *)
Lemma download_image_not_every_failure_is_clean :
  ~ (forall (r : remote) (url path : string) (w : world)
            (status : Z) (content : string),
        http_get r url = Response status content ->
        ~ (200 <= status < 300)%Z ->
        exists w', download_image r url path w = (Ok false, w')
                   /\ files w' = files w)
  /\ ~ (forall (r : remote) (url path : string) (w : world),
          disk r path <> Written ->
          exists w', download_image r url path w = (Ok false, w')
                     /\ files w' = files w).
Proof.
  split; intros H.
  - destruct (H not_modified_remote "u" "p" empty_world 304%Z "cached"
                eq_refl ltac:(lia)) as [w' [Hrun _]].
    vm_compute in Hrun. discriminate Hrun.
  - destruct (H full_disk_remote "u" "p" empty_world ltac:(discriminate))
      as [w' [Hrun Hfiles]].
    vm_compute in Hrun. injection Hrun as <-.
    apply (f_equal (fun m : gmap string string => m !! "p")) in Hfiles.
    vm_compute in Hfiles. discriminate Hfiles.
Qed.

(** C6, amended. [download_image] never raises. It returns [False] and
    leaves every file as it was when there is no response (time-out,
    transport error), when the status is a 4xx or 5xx one (404 among
    them), and when the destination cannot be opened. When the write fails
    after the open it returns [False] and the destination holds what was
    written. For every other status, with a disk that takes the write, it
    stores the whole body at the path and returns [True]. *)
Theorem download_image_outcomes
    (r : remote) (url path : string) (w : world) :
  (exists (b : bool) (w' : world), download_image r url path w = (Ok b, w'))
  /\ (http_get r url = NoResponse
      \/ (exists status content,
            http_get r url = Response status content
            /\ ((400 <= status < 600)%Z \/ disk r path = OpenFails)) ->
      exists w', download_image r url path w = (Ok false, w')
                 /\ files w' = files w)
  /\ (forall status content n,
        http_get r url = Response status content ->
        ~ (400 <= status < 600)%Z ->
        disk r path = WriteFails n ->
        exists w', download_image r url path w = (Ok false, w')
                   /\ files w' = <[path := Text.take n content]> (files w))
  /\ (forall status content,
        http_get r url = Response status content ->
        ~ (400 <= status < 600)%Z ->
        disk r path = Written ->
        exists w', download_image r url path w = (Ok true, w')
                   /\ files w' = <[path := content]> (files w)).
Proof.
  split; [apply download_image_returns|].
  split; [|split].
  - intros [H | (status & content & H & Hcase)].
    + rewrite (download_image_no_response _ _ _ _ H). eauto.
    + destruct (decide (400 <= status < 600)%Z) as [Hst|Hst].
      * rewrite (download_image_error_status _ _ _ _ _ _ H Hst). eauto.
      * destruct Hcase as [Hst' | Hd]; [contradiction|].
        rewrite (download_image_open_fails _ _ _ _ _ _ H Hst Hd). eauto.
  - intros status content n H Hst Hd.
    rewrite (download_image_write_fails _ _ _ _ _ _ _ H Hst Hd). eauto.
  - intros status content H Hst Hd.
    rewrite (download_image_written _ _ _ _ _ _ H Hst Hd). eauto.
Qed.

Lemma download_image_outcomes_witness :
  exists w', download_image not_found_remote "u" "p" empty_world = (Ok false, w')
             /\ files w' = files empty_world.
Proof.
  apply (proj1 (proj2 (download_image_outcomes
                         not_found_remote "u" "p" empty_world))).
  right. exists 404%Z, "Not Found". split; [reflexivity | left; lia].
Defined.

(** ** Properties of one task *)

Section TaskFacts.

Variable unquote : string -> string.
Variable repr : value -> string.

Lemma get_item_image_files r item w v w' :
  get_item_image r item w = (Ok v, w') -> files w' = files w.
Proof.
  unfold get_item_image, bind, lift, try_except.
  destruct (Py.getitem item "title") as [title|e]; [|discriminate].
  destruct (find_image r title) as [found|e]; cbn; intros H;
    injection H as _ <-; reflexivity.
Qed.

Lemma get_image_url_files r image_title w v w' :
  get_image_url r image_title w = (Ok v, w') -> files w' = files w.
Proof.
  unfold get_image_url, bind, lift, try_except.
  destruct (find_url r image_title) as [found|e]; cbn; intros H;
    injection H as _ <-; reflexivity.
Qed.

Lemma get_item_image_title r item w v w' :
  get_item_image r item w = (Ok v, w') ->
  exists title, Py.getitem item "title" = Ok title.
Proof.
  unfold get_item_image, bind, lift.
  destruct (Py.getitem item "title") as [title|e]; [eauto | discriminate].
Qed.

(** With download enabled, a resolved URL and a failed download, the
    task reports failure and hands back both [imageUrl] and [localPath]. *)
Lemma process_item_failed_download r item title image_title url w w1 w2 w3 :
  Py.getitem item "title" = Ok title ->
  get_item_image r item w = (Ok image_title, w1) ->
  Py.truthy image_title = true ->
  get_image_url r image_title w1 = (Ok (VStr url), w2) ->
  Py.truthy (VStr url) = true ->
  let filepath :=
    Path.join SAVE_DIR
      (sanitize_filename
         (format repr title +:+ "_" +:+ Path.basename (unquote url))) in
  download_image r url filepath w2 = (Ok false, w3) ->
  process_item unquote repr r item true w
  = (Ok (false, {| name := title; imageUrl := VStr url;
                   localPath := VStr filepath |}), w3).
Proof.
  intros Hget Himg Htitle Hurl Htruthy filepath Hdl.
  unfold process_item, bind at 1. rewrite Himg.
  unfold bind at 1, lift at 1. rewrite Hget, Htitle.
  unfold bind at 1. rewrite Hurl, Htruthy.
  unfold bind at 1, lift at 1, unquote_value.
  unfold bind. fold filepath. now rewrite Hdl.
Qed.

(** With download disabled a task raises only for an item without a
    title. *)
Lemma process_item_returns_without_download r item title w :
  Py.getitem item "title" = Ok title ->
  exists result,
    fst (process_item unquote repr r item false w) = Ok result.
Proof.
  intros Ht. unfold process_item, get_item_image, get_image_url,
    try_except, bind, lift, ret, logging.
  rewrite Ht. repeat case_match; simplify_eq; cbn; eauto.
Qed.

End TaskFacts.

(** C2. The code does not keep this claim. With download enabled and the
    server answering 404, [process_item] returns its failure flag together
    with an [item_info] whose [localPath] is already set: the path is
    stored before [download_image] is called and never cleared. *)
Theorem process_item_failed_download_keeps_localPath
    (unquote : string -> string) (repr : value -> string) :
  process_item unquote repr
    (apple_remote (VStr apple_url) (Response 404 "Not Found"))
    apple true empty_world
  = (Ok (false,
         {| name := VStr "Apple";
            imageUrl := VStr apple_url;
            localPath :=
              VStr (Path.join SAVE_DIR
                      (sanitize_filename
                         ("Apple_" +:+ Path.basename (unquote apple_url)))) |}),
     {| files := ∅;
        log := [(ERROR, MsgDownloadError apple_url HTTPError)] |}).
Proof. reflexivity. Qed.

(** C9, as stated, fails: a URL that is not [None] but empty is no URL
    for [if image_url:], and the item is a failure with [imageUrl] left
    at [None]. *)
Lemma process_item_empty_url_is_failure :
  ~ (forall (unquote : string -> string) (repr : value -> string)
            (r : remote) (item image_title image_url : value)
            (w w1 w2 : world),
        get_item_image r item w = (Ok image_title, w1) ->
        Py.truthy image_title = true ->
        get_image_url r image_title w1 = (Ok image_url, w2) ->
        Py.is_none image_url = false ->
        exists title,
          process_item unquote repr r item false w
          = (Ok (true, {| name := title; imageUrl := image_url;
                          localPath := VNone |}), w2)).
Proof.
  intros H.
  destruct (H (fun s => s) (fun _ => "")
              (apple_remote (VStr "") NoResponse) apple
              (VStr "File:Apple.png") (VStr "")
              empty_world empty_world empty_world
              eq_refl eq_refl eq_refl eq_refl) as [title Hrun].
  vm_compute in Hrun. discriminate Hrun.
Qed.

(** C9, amended. When the two lookups yield an image title and a URL that
    is neither [None] nor empty (a true value for [if image_url:]), then
    with download disabled the item is a success, its [imageUrl] is that
    URL, its [localPath] is [None], and no file on disk has changed. *)
Theorem process_item_without_download
    (unquote : string -> string) (repr : value -> string)
    (r : remote) (item image_title image_url : value) (w w1 w2 : world) :
  get_item_image r item w = (Ok image_title, w1) ->
  Py.truthy image_title = true ->
  get_image_url r image_title w1 = (Ok image_url, w2) ->
  Py.truthy image_url = true ->
  exists title,
    Py.getitem item "title" = Ok title
    /\ process_item unquote repr r item false w
       = (Ok (true, {| name := title; imageUrl := image_url;
                       localPath := VNone |}), w2)
    /\ files w2 = files w.
Proof.
  intros Himg Htitle Hurl Htruthy.
  destruct (get_item_image_title r item w _ _ Himg) as [title Hget].
  exists title. split; [exact Hget|]. split.
  - unfold process_item, bind at 1. rewrite Himg.
    unfold bind at 1, lift at 1. rewrite Hget, Htitle.
    unfold bind. rewrite Hurl, Htruthy. reflexivity.
  - rewrite (get_image_url_files _ _ _ _ _ Hurl).
    apply (get_item_image_files _ _ _ _ _ Himg).
Qed.

Lemma process_item_without_download_witness :
  exists title,
    Py.getitem apple "title" = Ok title
    /\ process_item (fun s => s) (fun _ => "")
         (apple_remote (VStr apple_url) NoResponse) apple false empty_world
       = (Ok (true, {| name := title; imageUrl := VStr apple_url;
                       localPath := VNone |}), empty_world)
    /\ files empty_world = files empty_world.
Proof.
  apply (process_item_without_download (fun s => s) (fun _ => "")
           (apple_remote (VStr apple_url) NoResponse) apple
           (VStr "File:Apple.png") (VStr apple_url)
           empty_world empty_world empty_world);
    reflexivity.
Defined.

(** ** Properties of the paginated lister *)

Section ListerFacts.

Lemma page_members_listed (members : list value)
    (more : list (string * value)) :
  page_members
    (VDict (("query", VDict [("categorymembers", VList members)]) :: more))
  = Ok members.
Proof. reflexivity. Qed.

Lemma page_continue_token (token : value) (more : list (string * value)) :
  page_continue
    (VDict (("continue", VDict [("cmcontinue", token)]) :: more))
  = Ok (Some token).
Proof. reflexivity. Qed.

Lemma page_continue_last (members : list value) :
  page_continue (members_response members) = Ok None.
Proof. reflexivity. Qed.

Lemma get_item_list_loop_pages (r : remote)
    (pages : list (list value * value)) (last : option (list value)) :
  forall (continue_token : value) (items : list value) (fuel : nat)
         (w : world),
    paginated r continue_token pages last ->
    (List.length pages < fuel)%nat ->
    exists w',
      get_item_list_loop r fuel items continue_token w
      = (Ok (Some (items ++ concat (map fst pages) ++ last_members last)), w')
      /\ files w' = files w.
Proof.
  induction pages as [|[members token] pages IH];
    intros tok items fuel w Hpag Hfuel;
    (destruct fuel as [|fuel]; [cbn in Hfuel; lia|]).
  - cbn [paginated] in Hpag. cbn [get_item_list_loop api_get].
    unfold api_get. destruct last as [members|].
    + destruct Hpag as (data & -> & -> & ->).
      eexists. split; reflexivity.
    + destruct Hpag as [-> | ->]; cbn [last_members concat map];
        rewrite app_nil_r; eexists; split; reflexivity.
  - cbn [paginated] in Hpag.
    destruct Hpag as (data & Hreply & Hmem & Hcont & Hrest).
    cbn [get_item_list_loop]. unfold api_get.
    rewrite Hreply, Hmem, Hcont.
    destruct (IH token (items ++ members) fuel w Hrest) as (w' & Hrun & Hf).
    { cbn in Hfuel. lia. }
    exists w'. split; [|exact Hf].
    rewrite Hrun. cbn [map concat fst]. now rewrite <- !app_assoc.
Qed.

Lemma get_item_list_loop_stuck r data members token fuel :
  forall items continue_token w,
  api r (CategoryMembers None) = Json data ->
  page_members data = Ok members ->
  page_continue data = Ok (Some token) ->
  Py.truthy token = false ->
  request_token continue_token = None ->
  get_item_list_loop r fuel items continue_token w = (Ok None, w).
Proof.
  induction fuel as [|fuel IH]; intros items tok w Hreply Hmem Hcont Hfalsy Htok;
    cbn [get_item_list_loop]; [reflexivity|].
  unfold api_get. rewrite Htok, Hreply, Hmem, Hcont.
  apply IH; try assumption. unfold request_token. now rewrite Hfalsy.
Qed.

(** What the lister reads off a response of the stated shape. *)
Lemma members_page_read data members token :
  members_page data members token ->
  page_members data = Ok members /\ page_continue data = Ok token.
Proof.
  intros (top & q & -> & Hq & Hm & Htok).
  unfold page_members, page_continue.
  rewrite (contains_maps_to _ _ _ Hq). cbn [res_bind].
  rewrite (getitem_maps_to _ _ _ Hq). cbn [res_bind].
  rewrite (contains_maps_to _ _ _ Hm). cbn [res_bind].
  rewrite (getitem_maps_to _ _ _ Hm). cbn [res_bind Py.iter].
  split; [reflexivity|]. destruct token as [t|].
  - destruct Htok as (c & Hc & Ht).
    rewrite (contains_maps_to _ _ _ Hc). cbn [res_bind].
    rewrite (getitem_maps_to _ _ _ Hc). cbn [res_bind].
    rewrite (contains_maps_to _ _ _ Ht). cbn [res_bind].
    now rewrite (getitem_maps_to _ _ _ Ht).
  - now rewrite (contains_lacks _ _ Htok).
Qed.

Lemma request_token_sendable token :
  sendable token -> request_token token = Some token.
Proof.
  intros (s & -> & Hs). unfold request_token, Py.truthy.
  destruct (String.eqb_spec s ""); [contradiction | reflexivity].
Qed.

Lemma listing_paginated r pages last : forall request continue_token,
  request_token continue_token = request ->
  listing r request pages last ->
  Forall (fun p => sendable (snd p)) pages ->
  paginated r continue_token pages last.
Proof.
  induction pages as [|[members token] pages IH];
    intros request tok Hreq Hlist Hsend; cbn [listing paginated] in *;
    rewrite Hreq.
  - destruct last as [members|]; [|exact Hlist].
    destruct Hlist as (data & Hreply & Hpage).
    apply members_page_read in Hpage as [Hm Hc]. eauto.
  - destruct Hlist as (data & Hreply & Hpage & Hrest).
    apply Forall_cons in Hsend as [Htoken Hsend]. cbn [snd] in Htoken.
    apply members_page_read in Hpage as [Hm Hc].
    exists data. repeat split; try assumption.
    apply (IH (Some token) token); try assumption.
    now apply request_token_sendable.
Qed.

End ListerFacts.

(** C5, as stated, fails: a listing of two pages whose first page hands
    back the empty string as continuation token. The script does not send
    an empty token, asks for the first page again and again, and never
    returns, whatever fuel it is given; the members of the two pages are
    not what it returns. *)
Lemma get_item_list_not_every_listing :
  ~ (forall (r : remote) (pages : list (list value * value))
            (last : list value) (w : world),
        listing r None pages (Some last) ->
        exists fuel w',
          get_item_list r fuel w
          = (Ok (Some (concat (map fst pages) ++ last)), w')).
Proof.
  intros H.
  destruct (H empty_token_remote [([apple], VStr "")] [bow] empty_world)
    as (fuel & w' & Hrun).
  - cbn. eexists. split; [reflexivity|]. split.
    + eexists _, _. split; [reflexivity|]. split; [holds_key|].
      split; [holds_key|]. eexists. split; holds_key.
    + eexists. split; [reflexivity|].
      eexists _, _. split; [reflexivity|]. split; [holds_key|].
      split; [holds_key|]. unfold lacks_key. cbn. intuition discriminate.
  - unfold get_item_list in Hrun.
    rewrite (get_item_list_loop_stuck empty_token_remote
               (VDict [("continue", VDict [("cmcontinue", VStr "")]);
                       ("query",
                        VDict [("categorymembers", VList [apple])])])
               [apple] (VStr "") fuel [] VNone empty_world
               eq_refl eq_refl eq_refl eq_refl eq_refl) in Hrun.
    discriminate Hrun.
Qed.

(** C5, amended. For a listing kept in pages whose continuation tokens are
    non-empty strings, [get_item_list] returns, without raising, the
    members of all pages in order, each page giving the list under
    ['query']['categorymembers'], the last page being the first response
    without a ['continue']; when instead the request after those pages
    fails in transport or parsing, it returns exactly the members of the
    pages before it. One request per page is enough fuel, and no file is
    touched. *)
Theorem get_item_list_returns_all_pages
    (r : remote) (pages : list (list value * value))
    (last : option (list value)) (fuel : nat) (w : world) :
  listing r None pages last ->
  Forall (fun p => sendable (snd p)) pages ->
  (List.length pages < fuel)%nat ->
  exists w',
    get_item_list r fuel w
    = (Ok (Some (concat (map fst pages) ++ last_members last)), w')
    /\ files w' = files w.
Proof.
  intros Hlist Hsend Hfuel. unfold get_item_list.
  apply (get_item_list_loop_pages r pages last VNone [] fuel w); [|exact Hfuel].
  now apply (listing_paginated r pages last None VNone).
Qed.

Ltac concrete_members_page :=
  eexists _, _; split; [reflexivity|]; split; [holds_key|];
  split; [holds_key|];
  first [ eexists; split; holds_key
        | unfold lacks_key; cbn; intuition discriminate ].

Lemma get_item_list_returns_all_pages_witness :
  (exists w',
     get_item_list (three_page_remote (Json (members_response [cake]))) 3
                   empty_world
     = (Ok (Some [apple; bow; cake]), w')
     /\ files w' = files empty_world)
  /\ (exists w',
        get_item_list (three_page_remote NotJson) 3 empty_world
        = (Ok (Some [apple; bow]), w')
        /\ files w' = files empty_world).
Proof.
  split.
  - apply (get_item_list_returns_all_pages
             (three_page_remote (Json (members_response [cake])))
             [([apple], VStr "page|2"); ([bow], VStr "page|3")]
             (Some [cake]) 3 empty_world).
    + cbn. eexists. split; [reflexivity|]. split; [concrete_members_page|].
      eexists. split; [reflexivity|]. split; [concrete_members_page|].
      eexists. split; [reflexivity|]. concrete_members_page.
    + repeat constructor; eexists; (split; [reflexivity | discriminate]).
    + cbn. lia.
  - apply (get_item_list_returns_all_pages
             (three_page_remote NotJson)
             [([apple], VStr "page|2"); ([bow], VStr "page|3")]
             None 3 empty_world).
    + cbn. eexists. split; [reflexivity|]. split; [concrete_members_page|].
      eexists. split; [reflexivity|]. split; [concrete_members_page|].
      now right.
    + repeat constructor; eexists; (split; [reflexivity | discriminate]).
    + cbn. lia.
Defined.

(** ** Properties of the worker pool *)

Section PoolFacts.

Variable unquote : string -> string.
Variable repr : value -> string.

(** Whatever [process_item] returns carries the item's title as name. *)
Lemma process_item_name r item dl w b info w' :
  process_item unquote repr r item dl w = (Ok (b, info), w') ->
  Py.getitem item "title" = Ok (name info).
Proof.
  unfold process_item, bind, lift, ret, raise. intros H.
  repeat case_match; simplify_eq; cbn; reflexivity.
Qed.

Lemma as_completed_seq (l1 l2 : list value) :
  as_completed (l1 ++ l2) (seq (List.length l1) (List.length l2)) = l2.
Proof.
  unfold as_completed. revert l1.
  induction l2 as [|x l2 IH]; intros l1; [reflexivity|].
  cbn [List.length seq omap list_omap].
  rewrite list_lookup_middle by reflexivity.
  f_equal. specialize (IH (l1 ++ [x])).
  rewrite <- app_assoc, length_app in IH. cbn in IH.
  rewrite Nat.add_1_r in IH. exact IH.
Qed.

Lemma as_completed_Permutation (items : list value) (order : list nat) :
  order ≡ₚ seq 0 (List.length items) -> as_completed items order ≡ₚ items.
Proof.
  intros Hperm. unfold as_completed. rewrite Hperm.
  apply (reflexive_eq _ _ (as_completed_seq [] items)).
Qed.

(** Each future pairs a submitted item with what its task did. *)
Lemma run_tasks_futures r dl (items : list value) :
  forall w futures w',
    run_tasks unquote repr r dl items w = (futures, w') ->
    Forall2 (fun item (fut : future) =>
               fst fut = item
               /\ exists w0,
                    snd fut = fst (process_item unquote repr r item dl w0))
            items futures.
Proof.
  induction items as [|item items IH]; intros w futures w' H; cbn in H.
  - injection H as <- <-. constructor.
  - destruct (process_item unquote repr r item dl w) as [outcome w1] eqn:E.
    destruct (run_tasks unquote repr r dl items w1) as [futs w2] eqn:E'.
    injection H as <- <-. constructor.
    + split; [reflexivity|]. exists w. now rewrite E.
    + apply (IH _ _ _ E').
Qed.

(** When every task returned, the loop gathers one [item_info] per
    future, in order, and counts each future once. *)
Lemma collect_returns dl (futures : list future) :
  Forall (fun fut : future =>
            exists b info,
              snd fut = Ok (b, info)
              /\ Py.getitem (fst fut) "title" = Ok (name info)) futures ->
  forall items_info s f w,
    exists gathered s' f' w',
      collect dl futures items_info s f w
      = (Ok (items_info ++ gathered, s', f'), w')
      /\ Forall2 (fun (fut : future) info =>
                    Py.getitem (fst fut) "title" = Ok (name info))
                 futures gathered
      /\ (s' + f' = s + f + List.length futures)%nat
      /\ files w' = files w.
Proof.
  induction futures as [|[item outcome] futures IH];
    intros Hall items_info s f w.
  - exists [], s, f, w. cbn. rewrite app_nil_r.
    repeat split; [constructor | lia].
  - apply Forall_cons in Hall as [(b & info & Hout & Htitle) Hall].
    cbn [fst snd] in Hout, Htitle. subst outcome.
    cbn [collect]. unfold bind at 1, lift at 1. cbn [fst snd].
    destruct b.
    + unfold bind at 1, logging at 1.
      destruct (IH Hall (items_info ++ [info]) (S s) f
                   (logged INFO
                      (if dl then MsgProcessed (name info)
                       else MsgInfoCollected (name info)) w))
        as (gathered & s' & f' & w' & Hrun & Hnames & Hcount & Hf).
      exists (info :: gathered), s', f', w'.
      rewrite <- app_assoc in Hrun. repeat split.
      * exact Hrun.
      * constructor; [exact Htitle | exact Hnames].
      * cbn [List.length]. lia.
      * exact Hf.
    + unfold bind at 1, lift at 1. rewrite Htitle.
      unfold bind at 1, logging at 1.
      destruct (IH Hall (items_info ++ [info]) s (S f)
                   (logged WARNING (MsgItemFailed (name info)) w))
        as (gathered & s' & f' & w' & Hrun & Hnames & Hcount & Hf).
      exists (info :: gathered), s', f', w'.
      rewrite <- app_assoc in Hrun. repeat split.
      * exact Hrun.
      * constructor; [exact Htitle | exact Hnames].
      * cbn [List.length]. lia.
      * exact Hf.
Qed.

End PoolFacts.

Section PoolResults.

Variable unquote : string -> string.
Variable repr : value -> string.

Lemma futures_returned r dl (items : list value) (futures : list future) :
  Forall2 (fun item (fut : future) =>
             fst fut = item
             /\ exists w0,
                  snd fut = fst (process_item unquote repr r item dl w0))
          items futures ->
  (forall item w0, In item items ->
     exists result, fst (process_item unquote repr r item dl w0) = Ok result) ->
  map fst futures = items
  /\ Forall (fun fut : future =>
               exists b info,
                 snd fut = Ok (b, info)
                 /\ Py.getitem (fst fut) "title" = Ok (name info)) futures.
Proof.
  induction 1 as [|item fut items futures [Hfst [w0 Hsnd]] _ IH];
    intros Hret; [split; [reflexivity | constructor]|].
  destruct IH as [Hmap Hall].
  { intros i w1 Hin. apply Hret. now right. }
  split; [cbn; now rewrite Hfst, Hmap|].
  constructor; [|exact Hall].
  destruct (Hret item w0 (or_introl eq_refl)) as [[b info] Hres].
  exists b, info. rewrite Hsnd, Hfst. split; [exact Hres|].
  destruct (process_item unquote repr r item dl w0) as [o w1] eqn:E.
  cbn in Hres. subst o. apply (process_item_name _ _ _ _ _ _ _ _ _ E).
Qed.

(** Collecting a list of futures in two parts. *)
Lemma collect_app dl (fs1 : list future) : forall fs2 items_info s f w,
  collect dl (fs1 ++ fs2) items_info s f w
  = match collect dl fs1 items_info s f w with
    | (Ok t, w') => collect dl fs2 (fst (fst t)) (snd (fst t)) (snd t) w'
    | (Raise e, w') => (Raise e, w')
    end.
Proof.
  induction fs1 as [|[item outcome] fs1 IH]; intros fs2 items_info s f w;
    [reflexivity|].
  cbn [app collect]. unfold bind at 1 3, lift at 1 2.
  destruct outcome as [[b info]|e]; [|reflexivity].
  cbn [fst snd]. destruct b.
  - unfold bind at 1 3, logging at 1 2. apply IH.
  - unfold bind at 1 4, lift at 1 2.
    destruct (Py.getitem item "title") as [title|e]; [|reflexivity].
    unfold bind at 1 3, logging at 1 2. apply IH.
Qed.

Lemma ensure_dir_done r dl w :
  (dl = true -> disk r SAVE_DIR <> OpenFails) ->
  (if dl then ensure_dir r SAVE_DIR else ret tt) w = (Ok tt, w).
Proof.
  intros Hdir. destruct dl; [|reflexivity].
  unfold ensure_dir. specialize (Hdir eq_refl).
  destruct (disk r SAVE_DIR); [contradiction | reflexivity | reflexivity].
Qed.

(** [main], one stage after the other, once the directory is there. *)
Lemma main_stages r fuel schedule dl w :
  (dl = true -> disk r SAVE_DIR <> OpenFails) ->
  main unquote repr r fuel schedule dl w
  = match get_item_list r fuel (logged INFO MsgListing w) with
    | (Raise e, w1) => (Raise e, w1)
    | (Ok None, w1) => (Ok None, w1)
    | (Ok (Some items), w1) =>
        match process_all unquote repr r items dl
                (schedule (List.length items))
                (logged INFO (MsgFound (List.length items)) w1) with
        | (Raise e, w2) => (Raise e, w2)
        | (Ok t, w2) =>
            match save_items_json r (fst (fst t)) w2 with
            | (Raise e, w3) => (Raise e, w3)
            | (Ok _, w3) =>
                (Ok (Some t),
                 logged INFO
                   (MsgSummary (List.length items) (snd (fst t)) (snd t)) w3)
            end
        end
    end.
Proof.
  intros Hdir. unfold main. unfold bind at 1.
  rewrite (ensure_dir_done r dl w Hdir).
  unfold bind at 1, logging at 1. fold (logged INFO MsgListing w).
  unfold bind at 1.
  destruct (get_item_list r fuel (logged INFO MsgListing w))
    as [[[items|]|e] w1]; reflexivity.
Qed.

End PoolResults.

(** C7, as stated, fails: a task that raises leaves the orchestrator
    without any result list. Here the image-info answer carries a number
    where the URL should be; with download enabled [unquote(image_url)]
    raises [TypeError] in the task, outside every [try], and
    [future.result()] raises it again in the collecting loop. *)
Lemma process_all_no_results_when_a_task_raises :
  ~ (forall (unquote : string -> string) (repr : value -> string)
            (r : remote) (items : list value) (download_files : bool)
            (order : list nat) (w : world),
        order ≡ₚ seq 0 (List.length items) ->
        exists infos s f w',
          process_all unquote repr r items download_files order w
          = (Ok (infos, s, f), w')
          /\ List.length infos = List.length items).
Proof.
  intros H.
  destruct (H (fun s => s) (fun _ => "") numeric_url_remote [apple]
              true [0]%nat empty_world (reflexivity _))
    as (infos & s & f & w' & Hrun & _).
  vm_compute in Hrun. discriminate Hrun.
Qed.

(** C7, amended. Whenever every task returns (none raises an exception of
    its own), the aggregated list has exactly one [item_info] per input
    item: as many entries as items, each named after one item, the items
    taken in completion order; and the two counters add up to the number
    of items. This holds however many lookups or downloads failed inside
    the tasks. *)
Theorem process_all_one_result_per_item
    (unquote : string -> string) (repr : value -> string)
    (r : remote) (items : list value) (download_files : bool)
    (order : list nat) (w : world) :
  order ≡ₚ seq 0 (List.length items) ->
  (forall item w0, In item items ->
     exists result,
       fst (process_item unquote repr r item download_files w0) = Ok result) ->
  exists infos s f w' completed,
    process_all unquote repr r items download_files order w
    = (Ok (infos, s, f), w')
    /\ List.length infos = List.length items
    /\ (s + f = List.length items)%nat
    /\ completed ≡ₚ items
    /\ Forall2 (fun item info => Py.getitem item "title" = Ok (name info))
               completed infos.
Proof.
  intros Hperm Hret. unfold process_all.
  pose proof (as_completed_Permutation items order Hperm) as Hdone.
  destruct (run_tasks unquote repr r download_files
                      (as_completed items order) w) as [futures w1] eqn:E.
  apply run_tasks_futures in E.
  destruct (futures_returned unquote repr r download_files _ _ E)
    as [Hmap Hall].
  { intros item w0 Hin. apply Hret.
    apply list_elem_of_In. rewrite <- Hdone. now apply list_elem_of_In. }
  destruct (collect_returns download_files futures Hall [] 0%nat 0%nat w1)
    as (gathered & s & f & w' & Hrun & Hnames & Hcount & _).
  exists gathered, s, f, w', (as_completed items order).
  assert (Hlen : List.length futures = List.length items).
  { rewrite <- (Permutation_length Hdone), <- Hmap. now rewrite length_map. }
  repeat split.
  - exact Hrun.
  - rewrite <- Hlen. symmetry. apply (Forall2_length _ _ _ Hnames).
  - lia.
  - exact Hdone.
  - rewrite <- Hmap. apply Forall2_fmap_l. exact Hnames.
Qed.

Lemma process_all_one_result_per_item_witness :
  exists infos s f w' completed,
    process_all (fun s => s) (fun _ => "")
      (apple_remote (VStr apple_url) (Response 404 "Not Found"))
      [apple; bow] true [1; 0]%nat empty_world
    = (Ok (infos, s, f), w')
    /\ List.length infos = 2%nat
    /\ (s + f = 2)%nat
    /\ completed ≡ₚ [apple; bow]
    /\ Forall2 (fun item info => Py.getitem item "title" = Ok (name info))
               completed infos.
Proof.
  apply (process_all_one_result_per_item (fun s => s) (fun _ => "")
           (apple_remote (VStr apple_url) (Response 404 "Not Found"))
           [apple; bow] true [1; 0]%nat empty_world).
  - cbn. apply perm_swap.
  - intros item w0 [<- | [<- | []]]; eexists; reflexivity.
Defined.

(** C4, as stated, fails: the orchestrator has no handler around
    [future.result()]. With a listed entry that has no title the task
    raises [KeyError], and [main] ends with that exception instead of
    recording a failure and going on. *)
Lemma main_aborts_when_a_task_raises :
  ~ (forall (unquote : string -> string) (repr : value -> string)
            (r : remote) (fuel : nat) (schedule : nat -> list nat)
            (download_files : bool) (w w1 : world) (items : list value),
        get_item_list r fuel (logged INFO MsgListing w) = (Ok (Some items), w1) ->
        exists t w',
          main unquote repr r fuel schedule download_files w
          = (Ok (Some t), w')).
Proof.
  intros H.
  destruct (H (fun s => s) (fun _ => "") untitled_remote 1%nat
              (fun n => seq 0 n) false empty_world
              (logged INFO MsgListing empty_world) [apple; untitled]
              eq_refl) as (t & w' & Hrun).
  vm_compute in Hrun. discriminate Hrun.
Qed.

(** C4, amended. When the task of an item raises an exception [e] that is
    not caught inside it, and the tasks that completed before it all
    returned, [future.result()] raises [e] again in the collecting loop:
    every dispatched task has run, the results of the tasks completed
    before are the only ones collected and counted (successes plus
    failures are their number: no failure is recorded for the item), and
    [main] ends with [e] in that very state, with neither catalog nor
    summary written. *)
Theorem main_propagates_task_fault
    (unquote : string -> string) (repr : value -> string)
    (r : remote) (fuel : nat) (schedule : nat -> list nat)
    (download_files : bool) (w w1 : world) (items before after : list value)
    (item : value) (e : exn) :
  (download_files = true -> disk r SAVE_DIR <> OpenFails) ->
  get_item_list r fuel (logged INFO MsgListing w) = (Ok (Some items), w1) ->
  as_completed items (schedule (List.length items))
  = before ++ item :: after ->
  (forall it w0, In it before ->
     exists result,
       fst (process_item unquote repr r it download_files w0) = Ok result) ->
  (forall w0,
     fst (process_item unquote repr r item download_files w0) = Raise e) ->
  exists futures w2 t w',
    run_tasks unquote repr r download_files (before ++ item :: after)
      (logged INFO (MsgFound (List.length items)) w1)
    = (futures, w2)
    /\ collect download_files (take (List.length before) futures)
         [] 0%nat 0%nat w2
       = (Ok t, w')
    /\ List.length (fst (fst t)) = List.length before
    /\ (snd (fst t) + snd t = List.length before)%nat
    /\ process_all unquote repr r items download_files
         (schedule (List.length items))
         (logged INFO (MsgFound (List.length items)) w1)
       = (Raise e, w')
    /\ main unquote repr r fuel schedule download_files w = (Raise e, w').
Proof.
  intros Hdir Hlist Hdone Hbefore Hraise.
  destruct (run_tasks unquote repr r download_files (before ++ item :: after)
              (logged INFO (MsgFound (List.length items)) w1))
    as [futures w2] eqn:E.
  pose proof (run_tasks_futures unquote repr _ _ _ _ _ _ E) as HF.
  apply Forall2_app_inv_l in HF as (fb & frest & HFb & HFrest & ->).
  apply Forall2_cons_inv_l in HFrest as (fi & fa & [_ [w0 Hfi]] & _ & ->).
  rewrite Hraise in Hfi.
  destruct (futures_returned unquote repr r download_files _ _ HFb)
    as [Hmap Hall].
  { intros it w3 Hin. now apply Hbefore. }
  destruct (collect_returns download_files fb Hall [] 0%nat 0%nat w2)
    as (gathered & s & f & w' & Hrun & Hnames & Hcount & _).
  assert (Hlen : List.length fb = List.length before).
  { rewrite <- Hmap. now rewrite length_map. }
  assert (Hpool : process_all unquote repr r items download_files
                    (schedule (List.length items))
                    (logged INFO (MsgFound (List.length items)) w1)
                  = (Raise e, w')).
  { unfold process_all. rewrite Hdone, E, collect_app, Hrun.
    cbn [fst snd collect]. destruct fi as [it outcome]. cbn in Hfi.
    subst outcome. reflexivity. }
  exists (fb ++ fi :: fa), w2, (gathered, s, f), w'.
  split; [reflexivity|]. split; [|split; [|split; [|split]]].
  - rewrite <- Hlen, take_app_length. exact Hrun.
  - cbn [fst]. rewrite <- Hlen. symmetry. apply (Forall2_length _ _ _ Hnames).
  - cbn [fst snd]. rewrite <- Hlen. lia.
  - exact Hpool.
  - rewrite (main_stages unquote repr r fuel schedule download_files w Hdir).
    now rewrite Hlist, Hpool.
Qed.

Lemma main_propagates_task_fault_witness :
  exists futures w2 t w',
    run_tasks (fun s => s) (fun _ => "") untitled_remote false
      ([apple] ++ untitled :: [])
      (logged INFO (MsgFound 2) (logged INFO MsgListing empty_world))
    = (futures, w2)
    /\ collect false (take 1 futures) [] 0%nat 0%nat w2 = (Ok t, w')
    /\ List.length (fst (fst t)) = 1%nat
    /\ (snd (fst t) + snd t = 1)%nat
    /\ process_all (fun s => s) (fun _ => "") untitled_remote
         [apple; untitled] false [0; 1]%nat
         (logged INFO (MsgFound 2) (logged INFO MsgListing empty_world))
       = (Raise KeyError, w')
    /\ main (fun s => s) (fun _ => "") untitled_remote 1 (fun n => seq 0 n)
           false empty_world
       = (Raise KeyError, w').
Proof.
  apply (main_propagates_task_fault (fun s => s) (fun _ => "")
           untitled_remote 1%nat (fun n => seq 0 n) false
           empty_world (logged INFO MsgListing empty_world)
           [apple; untitled] [apple] [] untitled KeyError).
  - discriminate.
  - reflexivity.
  - reflexivity.
  - intros it w0 [<- | []]. eexists. reflexivity.
  - intros w0. reflexivity.
Defined.

(** ** Properties of the catalog writer and of a whole run *)

Section WriterFacts.


Lemma save_items_json_written r items_info w :
  disk r json_path = Written ->
  save_items_json r items_info w
  = (Ok tt,
     {| files :=
          <[json_path :=
              Json.dumps (VList (map info_value (successful_items items_info)))]>
            (files w);
        log := log w ++ [(INFO, MsgCatalogSaved json_path)] |}).
Proof.
  intros Hd. unfold save_items_json, try_except, bind, write_file.
  now rewrite Hd.
Qed.


End WriterFacts.

(** *** Reading back what the encoder writes *)

Section ReaderFacts.

Import JsonText.

Lemma text_cons (x : ascii) (a b : string) :
  String x a +:+ b = String x (a +:+ b).
Proof. reflexivity. Qed.

Lemma text_nil (b : string) : "" +:+ b = b.
Proof. reflexivity. Qed.

Lemma text_app_assoc (a b c : string) : (a +:+ b) +:+ c = a +:+ b +:+ c.
Proof.
  induction a as [|x a IH]; rewrite ?text_cons, ?text_nil;
    [reflexivity | now rewrite IH].
Qed.












Lemma read_string_escape_char (c : ascii) (t : string) :
  read_string (Json.escape_char c +:+ t)
  = match read_string t with
    | Some (body, rest) => Some (String c body, rest)
    | None => None
    end.
Proof.
  destruct c as [[] [] [] [] [] [] [] []]; reflexivity.
Qed.

Lemma read_string_escape (s rest : string) :
  read_string (Json.escape s +:+ String Text.dquote rest) = Some (s, rest).
Proof.
  induction s as [|c s IH]; [reflexivity|].
  cbn [Json.escape]. rewrite text_app_assoc, read_string_escape_char.
  now rewrite IH.
Qed.

Lemma read_string_encode_str (s rest : string) :
  read_string (Json.escape s +:+ String Text.dquote "" +:+ rest)
  = Some (s, rest).
Proof. apply read_string_escape. Qed.

End ReaderFacts.

Section ReaderRoundTrip.

Import JsonText.





























End ReaderRoundTrip.

(** *** The catalog *)

Section CatalogLayout.











End CatalogLayout.


(** The layout of a catalog, line by line: two spaces a level, one key a
    line, the character 233 of the name untouched. *)
Example dumps_layout :
  Json.dumps (VList (map info_value (successful_items [unresolved; sword])))
  = lines
      ["[";
       "  {";
       "    " +:+ quoted "name" +:+ ": "
              +:+ quoted ("Ep" +:+ String "233"%char "e") +:+ ",";
       "    " +:+ quoted "imageUrl" +:+ ": "
              +:+ quoted "https://wiki.example/Sword.png" +:+ ",";
       "    " +:+ quoted "localPath" +:+ ": null";
       "  }";
       "]"].
Proof. reflexivity. Qed.


(** C3. The code does not keep this claim. One listed item, download
    enabled, the image resolved, the download answered with 404: the item
    is counted as failed (no success, one failure), and still the catalog
    that [main] writes holds its entry, [imageUrl] and [localPath]
    included. *)
Theorem main_catalogs_failed_download
    (unquote : string -> string) (repr : value -> string) :
  let r := apple_remote (VStr apple_url) (Response 404 "Not Found") in
  let info :=
    {| name := VStr "Apple";
       imageUrl := VStr apple_url;
       localPath :=
         VStr (Path.join SAVE_DIR
                 (sanitize_filename
                    ("Apple_" +:+ Path.basename (unquote apple_url)))) |} in
  exists w',
    main unquote repr r 1 (fun n => seq 0 n) true empty_world
    = (Ok (Some ([info], 0%nat, 1%nat)), w')
    /\ successful_items [info] = [info]
    /\ files w' !! json_path = Some (Json.dumps (VList [info_value info])).
Proof.
  intros r info.
  exists {| files := <[json_path := Json.dumps (VList [info_value info])]> ∅;
            log := [(INFO, MsgListing); (INFO, MsgFound 1);
                    (ERROR, MsgDownloadError apple_url HTTPError);
                    (WARNING, MsgItemFailed (VStr "Apple"));
                    (INFO, MsgCatalogSaved json_path);
                    (INFO, MsgSummary 1 0 1)] |}.
  split; [reflexivity|]. split; [reflexivity|].
  cbn [files]. apply lookup_insert_eq.
Qed.

(** ** Further properties of sanitize_filename *)

Section SanitizeMore.

Lemma map_chars_length f s :
  String.length (map_chars f s) = String.length s.
Proof. induction s as [|c s IH]; cbn; [reflexivity | now rewrite IH]. Qed.

Lemma take_length_min n : forall s,
  String.length (Text.take n s) = Nat.min n (String.length s).
Proof.
  induction n as [|n IH]; intros [|c s]; cbn; try reflexivity.
  now rewrite IH.
Qed.

Lemma take_all n : forall s,
  (String.length s <= n)%nat -> Text.take n s = s.
Proof.
  induction n as [|n IH]; intros [|c s] H; cbn in *; try reflexivity; try lia.
  rewrite IH; [reflexivity | lia].
Qed.

Lemma sanitize_char_keeps c : is_invalid c = false -> sanitize_char c = c.
Proof.
  destruct c as [[] [] [] [] [] [] [] []]; intros H;
    try reflexivity; discriminate H.
Qed.

Lemma map_chars_keeps s :
  (forall c, In c (Text.chars s) -> is_invalid c = false) ->
  map_chars sanitize_char s = s.
Proof.
  induction s as [|a s IH]; intros H; cbn [map_chars]; [reflexivity|].
  change (Text.chars (String a s)) with (a :: Text.chars s) in H.
  rewrite sanitize_char_keeps by (apply H; now left).
  rewrite IH; [reflexivity|]. intros c Hc. apply H. now right.
Qed.

Lemma map_chars_fixed s :
  map_chars sanitize_char s = s ->
  forall c, In c (Text.chars s) -> is_invalid c = false.
Proof.
  induction s as [|a s IH]; cbn [map_chars]; intros H c Hc; [destruct Hc|].
  change (Text.chars (String a s)) with (a :: Text.chars s) in Hc.
  injection H as Ha Hs. destruct Hc as [<- | Hc].
  - rewrite <- Ha. apply sanitize_char_valid.
  - now apply IH.
Qed.

End SanitizeMore.

(** X1. [sanitize_filename] changes the length of a name only by cutting
    it at 255 characters: replacing never adds or removes a character. *)
Theorem sanitize_filename_length (s : string) :
  String.length (sanitize_filename s) = Nat.min (String.length s) 255.
Proof.
  rewrite sanitize_filename_map, take_length_min, map_chars_length.
  apply Nat.min_comm.
Qed.

(** X2. The names [sanitize_filename] leaves as they are, are exactly
    those of at most 255 characters that hold none of the nine replaced
    characters. *)
Theorem sanitize_filename_fixed_points (s : string) :
  sanitize_filename s = s
  <-> (forall c, In c (Text.chars s) -> is_invalid c = false)
      /\ (String.length s <= 255)%nat.
Proof.
  rewrite sanitize_filename_map. split.
  - intros H.
    assert (Hlen : (String.length s <= 255)%nat).
    { rewrite <- H. apply take_length. }
    split; [|exact Hlen].
    rewrite take_all in H by (now rewrite map_chars_length).
    now apply map_chars_fixed.
  - intros [Hvalid Hlen].
    rewrite map_chars_keeps by exact Hvalid. now apply take_all.
Qed.

(** ** Further properties of the item resolver *)

Section ResolverMore.

Lemma title_has_true sub image :
  title_has sub image = Ok true ->
  exists s, Py.getitem image "title" = Ok (VStr s)
            /\ Text.contains sub (Text.lower s) = true.
Proof.
  unfold title_has, res_bind.
  destruct (Py.getitem image "title") as [t|e]; [|discriminate].
  destruct t; cbn; try discriminate.
  intros H. injection H as H. eauto.
Qed.

Lemma scan_images_found images t :
  scan_images images = Ok (Some t) ->
  exists s, t = VStr s /\ title_matches s = true.
Proof.
  induction images as [|image images IH]; cbn [scan_images]; [discriminate|].
  unfold res_bind at 1.
  destruct (title_has "png" image) as [png|e] eqn:Hpng; [|discriminate].
  destruct png.
  - apply title_has_true in Hpng as (s & Hs & Hc).
    cbn. rewrite Hs. cbn. intros H. injection H as <-.
    exists s. split; [reflexivity|]. unfold title_matches. now rewrite Hc.
  - unfold res_bind at 1.
    destruct (title_has "gif" image) as [gif|e] eqn:Hgif; [|discriminate].
    destruct gif; [|exact IH].
    apply title_has_true in Hgif as (s & Hs & Hc).
    cbn. rewrite Hs. cbn. intros H. injection H as <-.
    exists s. split; [reflexivity|]. unfold title_matches. rewrite Hc.
    apply orb_true_r.
Qed.

Lemma scan_pages_found pages page_ids t :
  scan_pages pages page_ids = Ok (Some t) ->
  exists s, t = VStr s /\ title_matches s = true.
Proof.
  induction page_ids as [|page_id page_ids IH]; cbn [scan_pages];
    [discriminate|].
  unfold res_bind.
  destruct (Py.getitem_value pages page_id) as [page|e]; [|discriminate].
  destruct (Py.contains "images" page) as [[|]|e]; [| exact IH | discriminate].
  destruct (Py.getitem page "images") as [imgs|e]; [|discriminate].
  destruct (Py.iter imgs) as [images|e]; [|discriminate].
  destruct (scan_images images) as [[t'|]|e] eqn:Hscan;
    [| exact IH | discriminate].
  intros H. injection H as <-. now apply scan_images_found in Hscan.
Qed.

Lemma find_image_found r title t :
  find_image r title = Ok (Some t) ->
  exists s, t = VStr s /\ title_matches s = true.
Proof.
  unfold find_image, res_bind.
  destruct (api_get r (PageImages title)) as [data|e]; [|discriminate].
  destruct (Py.getitem data "query") as [q|e]; [|discriminate].
  destruct (Py.getitem q "pages") as [pages|e]; [|discriminate].
  destruct (Py.iter pages) as [ids|e]; [|discriminate].
  apply scan_pages_found.
Qed.

End ResolverMore.

(** X3. [get_item_image] raises only what [item['title']] raises, before
    any request. For an item with a title it always returns, touching no
    file: either a string that, lower-cased, contains [png] or [gif], with
    nothing logged; or [None], with at most one error record logged. *)
Theorem get_item_image_fails_soft (r : remote) (item : value) (w : world) :
  match Py.getitem item "title" with
  | Raise e => get_item_image r item w = (Raise e, w)
  | Ok title =>
      exists v w',
        get_item_image r item w = (Ok v, w')
        /\ files w' = files w
        /\ ((exists s, v = VStr s /\ title_matches s = true) /\ w' = w
            \/ v = VNone
               /\ (w' = w
                   \/ exists e, w' = logged ERROR (MsgImageError title e) w))
  end.
Proof.
  unfold get_item_image, bind, lift, try_except.
  destruct (Py.getitem item "title") as [title|e]; [|reflexivity].
  destruct (find_image r title) as [[t|]|e] eqn:Hfind; cbn.
  - apply find_image_found in Hfind as (s & -> & Hs).
    exists (VStr s), w. repeat split. left. eauto.
  - exists VNone, w. repeat split. right. split; [reflexivity | now left].
  - exists VNone, (logged ERROR (MsgImageError title e) w).
    repeat split. right. split; [reflexivity | right; eauto].
Qed.

(** X4. An image entry without a title hides every image listed after it:
    when no title before it matches, on earlier pages or on its own, the
    [KeyError] ends the search, is logged, and [get_item_image] returns
    [None] whatever follows, on that page or on later ones. *)
Theorem get_item_image_bad_entry_hides_rest
    (r : remote) (item title data : value)
    (before more entries bad_entries : list (string * value))
    (page_id : string) (tss : list (option (list string)))
    (good rest : list value) (ts : list string) (w : world) :
  Py.getitem item "title" = Ok title ->
  api r (PageImages title) = Json data ->
  answer_pages data (before ++ (page_id, VDict entries) :: more) ->
  Forall2 page_with_images (map snd before) tss ->
  maps_to entries "images" (VList (good ++ VDict bad_entries :: rest)) ->
  Forall2 titled_image good ts ->
  lacks_key bad_entries "title" ->
  select_by_substring (titles_of tss ++ ts) = None ->
  get_item_image r item w
  = (Ok VNone, logged ERROR (MsgImageError title KeyError) w).
Proof.
  intros Htitle Hapi Hanswer Hbefore Himages Hgood Hbad Hnone.
  destruct (answer_pages_found _ _ Hanswer) as (q & Hq & Hp & Hiter).
  assert (Hnd : NoDup (map fst (before ++ (page_id, VDict entries) :: more)))
    by (destruct Hanswer as (top & q' & _ & _ & _ & Hnd); exact Hnd).
  unfold select_by_substring in Hnone. rewrite find_app_first in Hnone.
  fold (select_by_substring (titles_of tss)) in Hnone.
  fold (select_by_substring ts) in Hnone.
  destruct (select_by_substring (titles_of tss)) eqn:Hnone1; [discriminate|].
  unfold get_item_image, bind, lift, try_except, find_image, api_get.
  rewrite Htitle, Hapi. cbn [res_bind]. rewrite Hq. cbn [res_bind].
  rewrite Hp. cbn [res_bind]. rewrite Hiter. cbn [res_bind].
  rewrite map_app.
  rewrite (scan_pages_titled _ before tss _ Hnd); [|apply incl_appl, incl_refl
                                                   |exact Hbefore].
  rewrite Hnone1. cbn [map scan_pages fst].
  rewrite (page_found _ page_id (VDict entries) Hnd)
    by (apply in_or_app; right; now left).
  cbn [res_bind]. rewrite (contains_maps_to _ _ _ Himages). cbn [res_bind].
  rewrite (getitem_maps_to _ _ _ Himages). cbn [res_bind Py.iter].
  rewrite (scan_images_titled good ts _ Hgood), Hnone.
  cbn [scan_images]. unfold title_has, Py.getitem.
  rewrite (lookup_key_lacks _ _ Hbad). reflexivity.
Qed.

Lemma get_item_image_bad_entry_hides_rest_witness :
  get_item_image
    (wiki_remote
       (wiki_answer
          (wiki_pages
             [wiki_image "File:Apple.jpg"; VDict [("ns", VInt 6)];
              wiki_image "File:Apple.png"]))
       VNone)
    apple empty_world
  = (Ok VNone,
     logged ERROR (MsgImageError (VStr "Apple") KeyError) empty_world).
Proof.
  apply (get_item_image_bad_entry_hides_rest _ apple (VStr "Apple")
           (wiki_answer
              (wiki_pages
                 [wiki_image "File:Apple.jpg"; VDict [("ns", VInt 6)];
                  wiki_image "File:Apple.png"]))
           [("-1", VDict [("ns", VInt 0); ("missing", VStr "")])] []
           [("pageid", VInt 8421); ("ns", VInt 0); ("title", VStr "Apple");
            ("images",
             VList [wiki_image "File:Apple.jpg"; VDict [("ns", VInt 6)];
                    wiki_image "File:Apple.png"])]
           [("ns", VInt 6)] "8421" [None]
           [wiki_image "File:Apple.jpg"] [wiki_image "File:Apple.png"]
           ["File:Apple.jpg"] empty_world).
  - reflexivity.
  - reflexivity.
  - concrete_answer.
  - repeat constructor. eexists. split; [reflexivity|].
    unfold lacks_key. cbn. intuition discriminate.
  - holds_key.
  - repeat constructor. concrete_image.
  - unfold lacks_key. cbn. intuition discriminate.
  - reflexivity.
Defined.

Section ImageInfoFacts.

(** Pages without an ['imageinfo'] key are passed over. *)
Lemma scan_imageinfo_skips (all before : list (string * value)) :
  forall tail,
  NoDup (map fst all) -> incl before all ->
  Forall (fun p => dict_without "imageinfo" (snd p)) before ->
  scan_imageinfo (VDict all) (map (fun p => VStr (fst p)) before ++ tail)
  = scan_imageinfo (VDict all) tail.
Proof.
  intros tail Hnd. induction before as [|[k page] before IH];
    intros Hincl HF; [reflexivity|].
  apply Forall_cons in HF as [(entries & Hpage & Hlacks) HF].
  cbn [snd] in Hpage. subst page.
  assert (Hin : In (k, VDict entries) all) by (apply Hincl; now left).
  assert (Hrest : incl before all) by (intros x Hx; apply Hincl; now right).
  cbn [map app scan_imageinfo fst].
  rewrite (page_found all k _ Hnd Hin). cbn [res_bind].
  rewrite (contains_lacks _ _ Hlacks). cbn [res_bind].
  now apply IH.
Qed.

Lemma first_of_list (x : value) (l : list value) :
  Py.getitem_value (VList (x :: l)) (VInt 0) = Ok x.
Proof. reflexivity. Qed.

End ImageInfoFacts.

(** X5. Whenever the answer to the image-info query holds, among whatever
    other keys, a ['query'] with ['pages'] keyed by page id,
    [get_image_url] looks only at the first page that has an
    ['imageinfo'] key: it returns what the first entry of that list holds
    under ['url'], as it is; [None], with an [IndexError] logged, when
    that list is empty, later pages notwithstanding; and [None] when no
    page has the key. *)
Theorem get_image_url_first_imageinfo
    (r : remote) (image_title data : value)
    (before rest : list (string * value)) (o : info_outcome) (w : world) :
  api r (ImageInfo image_title) = Json data ->
  answer_pages data (before ++ rest) ->
  Forall (fun p => dict_without "imageinfo" (snd p)) before ->
  first_info rest o ->
  get_image_url r image_title w
  = match o with
    | NoInfo => (Ok VNone, w)
    | EmptyInfo =>
        (Ok VNone, logged ERROR (MsgUrlError image_title IndexError) w)
    | InfoUrl url => (Ok url, w)
    end.
Proof.
  intros Hapi Hanswer Hbefore Hfirst.
  destruct (answer_pages_found _ _ Hanswer) as (q & Hq & Hp & Hiter).
  assert (Hnd : NoDup (map fst (before ++ rest)))
    by (destruct Hanswer as (top & q' & _ & _ & _ & Hnd); exact Hnd).
  unfold get_image_url, bind, lift, try_except, find_url, api_get.
  rewrite Hapi. cbn [res_bind]. rewrite Hq. cbn [res_bind].
  rewrite Hp. cbn [res_bind]. rewrite Hiter. cbn [res_bind].
  rewrite map_app.
  rewrite (scan_imageinfo_skips _ before _ Hnd);
    [|apply incl_appl, incl_refl | exact Hbefore].
  destruct o as [| |url]; cbn [first_info] in Hfirst.
  - subst rest. reflexivity.
  - destruct Hfirst as (page_id & entries & more & -> & Hinfo).
    cbn [map scan_imageinfo fst].
    rewrite (page_found _ page_id (VDict entries) Hnd)
      by (apply in_or_app; right; now left).
    cbn [res_bind]. rewrite (contains_maps_to _ _ _ Hinfo). cbn [res_bind].
    rewrite (getitem_maps_to _ _ _ Hinfo). reflexivity.
  - destruct Hfirst as (page_id & entries & more & first & others & -> & Hinfo
                        & Hurl).
    cbn [map scan_imageinfo fst].
    rewrite (page_found _ page_id (VDict entries) Hnd)
      by (apply in_or_app; right; now left).
    cbn [res_bind]. rewrite (contains_maps_to _ _ _ Hinfo). cbn [res_bind].
    rewrite (getitem_maps_to _ _ _ Hinfo). cbn [res_bind].
    rewrite first_of_list. cbn [res_bind].
    now rewrite (getitem_maps_to _ _ _ Hurl).
Qed.

Lemma get_image_url_first_imageinfo_witness :
  get_image_url
    (wiki_remote VNone
       (wiki_answer
          [("-1", VDict [("ns", VInt 6); ("missing", VStr "")]);
           ("9001", wiki_info_page [wiki_info_entry apple_url]);
           ("9002", wiki_info_page [])]))
    (VStr "File:Apple.png") empty_world
  = (Ok (VStr apple_url), empty_world).
Proof.
  apply (get_image_url_first_imageinfo _ (VStr "File:Apple.png")
           (wiki_answer
              [("-1", VDict [("ns", VInt 6); ("missing", VStr "")]);
               ("9001", wiki_info_page [wiki_info_entry apple_url]);
               ("9002", wiki_info_page [])])
           [("-1", VDict [("ns", VInt 6); ("missing", VStr "")])]
           [("9001", wiki_info_page [wiki_info_entry apple_url]);
            ("9002", wiki_info_page [])]
           (InfoUrl (VStr apple_url)) empty_world).
  - reflexivity.
  - concrete_answer.
  - repeat constructor. eexists. split; [reflexivity|].
    unfold lacks_key. cbn. intuition discriminate.
  - eexists _, _, _, _, _. split; [reflexivity|]. split; holds_key.
Defined.

(** ** Further properties of the asset fetcher *)

(** Going through what the server and the disk may do, [H] being the run of
    [download_image] under study. *)
Ltac download_cases r url path w H :=
  let status := fresh "status" in
  let content := fresh "content" in
  let Hget := fresh "Hget" in
  let Hst := fresh "Hst" in
  let Hd := fresh "Hd" in
  let n := fresh "n" in
  destruct (http_get r url) as [|status content] eqn:Hget;
  [ rewrite (download_image_no_response r url path w Hget) in H
  | destruct (decide (400 <= status < 600)%Z) as [Hst|Hst];
    [ rewrite (download_image_error_status r url path w _ _ Hget Hst) in H
    | destruct (disk r path) as [|n|] eqn:Hd;
      [ rewrite (download_image_open_fails r url path w _ _ Hget Hst Hd) in H
      | rewrite (download_image_write_fails r url path w _ _ n Hget Hst Hd) in H
      | rewrite (download_image_written r url path w _ _ Hget Hst Hd) in H ] ] ].

Section FetcherMore.

Lemma download_image_stored r url path w w' :
  download_image r url path w = (Ok true, w') ->
  exists status content,
    http_get r url = Response status content
    /\ ~ (400 <= status < 600)%Z
    /\ files w' !! path = Some content.
Proof.
  intros H. download_cases r url path w H; try discriminate H.
  injection H as <-.
  exists status, content. split; [reflexivity|]. split; [exact Hst|].
  cbn [files]. apply lookup_insert_eq.
Qed.

End FetcherMore.

(** X6. [download_image] touches no file but its destination, and adds
    exactly one record to the log: the download notice when it returns
    [True], an error record when it returns [False]. *)
Theorem download_image_frame
    (r : remote) (url path : string) (w w' : world) (b : bool) :
  download_image r url path w = (Ok b, w') ->
  (forall p, p <> path -> files w' !! p = files w !! p)
  /\ (if b then log w' = log w ++ [(INFO, MsgDownloaded path)]
      else exists e, log w' = log w ++ [(ERROR, MsgDownloadError url e)]).
Proof.
  intros H. download_cases r url path w H; injection H as <- <-;
    cbn [files log];
    (split; [intros p Hp; try reflexivity; now apply lookup_insert_ne
            | eauto]).
Qed.

Lemma download_image_frame_witness :
  files (logged ERROR (MsgDownloadError "u" HTTPError) empty_world)
    !! "scripts/y.png"
  = files empty_world !! "scripts/y.png"
  /\ exists e,
       log (logged ERROR (MsgDownloadError "u" HTTPError) empty_world)
       = log empty_world ++ [(ERROR, MsgDownloadError "u" e)].
Proof.
  destruct (download_image_frame not_found_remote "u" "scripts/x.png"
              empty_world
              (logged ERROR (MsgDownloadError "u" HTTPError) empty_world)
              false eq_refl) as [Hframe Hlog].
  split; [apply Hframe; discriminate | exact Hlog].
Defined.

(** X7. A [True] from [download_image] is a guarantee: the server
    answered with a status outside 400..599 and the destination now holds
    the whole body of that answer. *)
Theorem download_image_true_means_stored
    (r : remote) (url path : string) (w w' : world) :
  download_image r url path w = (Ok true, w') ->
  exists status content,
    http_get r url = Response status content
    /\ ~ (400 <= status < 600)%Z
    /\ files w' !! path = Some content.
Proof. apply download_image_stored. Qed.

Lemma download_image_true_means_stored_witness :
  exists status content,
    http_get not_modified_remote "u" = Response status content
    /\ ~ (400 <= status < 600)%Z
    /\ files (logged INFO (MsgDownloaded "p")
                (set_file "p" "cached" empty_world)) !! "p"
       = Some content.
Proof.
  apply (download_image_true_means_stored not_modified_remote "u" "p"
           empty_world).
  reflexivity.
Defined.

(** ** Further properties of one task *)

Section TaskMore.

Variable unquote : string -> string.
Variable repr : value -> string.

Lemma get_item_image_world r item w res w' :
  get_item_image r item w = (res, w') -> files w' = files w.
Proof.
  unfold get_item_image, bind, lift, try_except, ret, logging.
  intros H. repeat case_match; simplify_eq; reflexivity.
Qed.

Lemma get_image_url_world r image_title w res w' :
  get_image_url r image_title w = (res, w') -> files w' = files w.
Proof.
  unfold get_image_url, bind, lift, try_except, ret, logging.
  intros H. repeat case_match; simplify_eq; reflexivity.
Qed.

Lemma download_image_other_files r url path w res w' :
  download_image r url path w = (res, w') ->
  forall p, p <> path -> files w' !! p = files w !! p.
Proof.
  intros H. download_cases r url path w H; injection H as <- <-;
    intros p Hp; cbn [files]; try reflexivity; now apply lookup_insert_ne.
Qed.

(** The only step of a task that can change a file is its one call of
    [download_image], on a path made by [Path.join] and
    [sanitize_filename]. *)
Lemma process_item_world r item dl w res w' :
  process_item unquote repr r item dl w = (res, w') ->
  files w' = files w
  \/ exists x url w2 res',
       dl = true
       /\ files w2 = files w
       /\ download_image r url (Path.join SAVE_DIR (sanitize_filename x)) w2
          = (res', w').
Proof.
  unfold process_item, bind, lift, ret, raise. intros H.
  repeat case_match; simplify_eq;
    repeat match goal with
           | E : get_item_image _ _ _ = _ |- _ =>
               apply get_item_image_world in E
           | E : get_image_url _ _ _ = _ |- _ =>
               apply get_image_url_world in E
           end;
    try (left; congruence);
    right; do 4 eexists; (split; [reflexivity|]);
    (split; [|eassumption]); congruence.
Qed.

Lemma sanitize_filename_no_slash x :
  ~ In "/"%char (Text.chars (sanitize_filename x)).
Proof.
  intros Hin. rewrite sanitize_filename_map in Hin.
  apply chars_take_incl, chars_map_chars in Hin as [a Ha].
  pose proof (sanitize_char_valid a) as Hv. rewrite <- Ha in Hv.
  discriminate Hv.
Qed.

Lemma prefix_slash_chars s :
  String.prefix "/" s = true -> In "/"%char (Text.chars s).
Proof.
  destruct s as [|c s]; [discriminate|].
  unfold Text.chars. cbn [String.prefix list_ascii_of_string In].
  destruct (ascii_dec "/" c) as [Heq|]; [left; now symmetry | discriminate].
Qed.

Lemma join_save_dir x :
  Path.join SAVE_DIR (sanitize_filename x) = in_save_dir (sanitize_filename x).
Proof.
  unfold Path.join.
  destruct (String.prefix "/" (sanitize_filename x)) eqn:Hp; [|reflexivity].
  exfalso. apply (sanitize_filename_no_slash x). now apply prefix_slash_chars.
Qed.

Lemma json_path_not_in_save_dir f : json_path <> in_save_dir f.
Proof. vm_compute. discriminate. Qed.

End TaskMore.

(** X8. Whatever a task does and however it ends, then, the log file with
    its appended records apart, it changes at most one file, and that file
    lies directly inside [SAVE_DIR]: its name holds no slash, so no title
    or URL can steer a download elsewhere. The catalog file in particular
    is out of a task's reach. *)
Theorem process_item_writes_inside_save_dir
    (unquote : string -> string) (repr : value -> string)
    (r : remote) (item : value) (download_files : bool)
    (w w' : world) (res : res (bool * item_info)) :
  process_item unquote repr r item download_files w = (res, w') ->
  files w' !! json_path = files w !! json_path
  /\ exists f,
       ~ In "/"%char (Text.chars f)
       /\ forall p, p <> in_save_dir f -> p <> LOG_FILE ->
            files w' !! p = files w !! p.
Proof.
  intros H. apply process_item_world in H
    as [Hsame | (x & url & w2 & res' & _ & Hw2 & Hdl)].
  - rewrite Hsame. split; [reflexivity|].
    exists "". split; [intros []|]. reflexivity.
  - rewrite join_save_dir in Hdl.
    pose proof (download_image_other_files _ _ _ _ _ _ Hdl) as Hframe.
    rewrite <- Hw2. split.
    + apply Hframe, json_path_not_in_save_dir.
    + exists (sanitize_filename x).
      split; [apply sanitize_filename_no_slash|].
      intros p Hp _. now apply Hframe.
Qed.

Lemma process_item_writes_inside_save_dir_witness :
  files (snd (process_item (fun s => s) (fun _ => "")
                (apple_remote (VStr apple_url) (Response 200 "PNG-bytes"))
                apple true empty_world))
    !! json_path
  = files empty_world !! json_path
  /\ exists f,
       ~ In "/"%char (Text.chars f)
       /\ files (snd (process_item (fun s => s) (fun _ => "")
                        (apple_remote (VStr apple_url)
                           (Response 200 "PNG-bytes"))
                        apple true empty_world))
            !! "notes.txt"
          = files empty_world !! "notes.txt".
Proof.
  destruct (process_item_writes_inside_save_dir (fun s => s) (fun _ => "")
              (apple_remote (VStr apple_url) (Response 200 "PNG-bytes"))
              apple true empty_world
              (snd (process_item (fun s => s) (fun _ => "")
                      (apple_remote (VStr apple_url)
                         (Response 200 "PNG-bytes"))
                      apple true empty_world))
              (fst (process_item (fun s => s) (fun _ => "")
                      (apple_remote (VStr apple_url)
                         (Response 200 "PNG-bytes"))
                      apple true empty_world))
              eq_refl) as [Hjson (f & Hf & Hframe)].
  split; [exact Hjson|]. exists f. split; [exact Hf|].
  apply Hframe; [unfold in_save_dir, SAVE_DIR; cbn|]; discriminate.
Defined.

(** X9. With download disabled a task that returns never sets
    [localPath] and changes no file other than the log file, to which the
    records of failed lookups are appended; and its success flag says
    exactly whether [imageUrl] was set: a true value on success, [None]
    on failure. *)
Theorem process_item_metadata_only
    (unquote : string -> string) (repr : value -> string)
    (r : remote) (item : value) (w w' : world)
    (success : bool) (info : item_info) :
  process_item unquote repr r item false w = (Ok (success, info), w') ->
  localPath info = VNone
  /\ (forall p, p <> LOG_FILE -> files w' !! p = files w !! p)
  /\ (if success then Py.truthy (imageUrl info) = true
      else imageUrl info = VNone).
Proof.
  intros H. split; [|split].
  - revert H. unfold process_item, bind, lift, ret, raise. intros H.
    repeat case_match; simplify_eq; reflexivity.
  - apply process_item_world in H
      as [Hsame | (x & url & w2 & res' & Hdl & _)];
      [now rewrite Hsame | discriminate Hdl].
  - revert H. unfold process_item, bind, lift, ret, raise. intros H.
    repeat case_match; simplify_eq; cbn [imageUrl]; congruence.
Qed.

Lemma process_item_metadata_only_witness :
  localPath {| name := VStr "Bow"; imageUrl := VNone; localPath := VNone |}
  = VNone
  /\ files (logged ERROR (MsgImageError (VStr "Bow") RequestException)
              {| files := {[ "notes.txt" := "keep" ]}; log := [] |})
       !! "notes.txt"
     = files {| files := {[ "notes.txt" := "keep" ]}; log := [] |}
         !! "notes.txt"
  /\ imageUrl {| name := VStr "Bow"; imageUrl := VNone; localPath := VNone |}
     = VNone.
Proof.
  destruct (process_item_metadata_only (fun s => s) (fun _ => "")
              (apple_remote (VStr apple_url) NoResponse) bow
              {| files := {[ "notes.txt" := "keep" ]}; log := [] |}
              (logged ERROR (MsgImageError (VStr "Bow") RequestException)
                 {| files := {[ "notes.txt" := "keep" ]}; log := [] |})
              false
              {| name := VStr "Bow"; imageUrl := VNone; localPath := VNone |}
              eq_refl) as (Hpath & Hframe & Hflag).
  split; [exact Hpath|]. split; [|exact Hflag].
  apply Hframe. discriminate.
Defined.

(** X10. With download enabled, a task that reports success hands back a
    string URL and a [localPath] inside [SAVE_DIR] at which the disk now
    holds the whole body the server sent for that URL. *)
Theorem process_item_success_has_file
    (unquote : string -> string) (repr : value -> string)
    (r : remote) (item : value) (w w' : world) (info : item_info) :
  process_item unquote repr r item true w = (Ok (true, info), w') ->
  exists url f status content,
    imageUrl info = VStr url
    /\ localPath info = VStr (in_save_dir f)
    /\ http_get r url = Response status content
    /\ files w' !! in_save_dir f = Some content.
Proof.
  unfold process_item, bind, lift, ret, raise. intros H.
  repeat case_match; simplify_eq.
  match goal with
  | E : download_image _ _ _ _ = (Ok true, _) |- _ =>
      rewrite join_save_dir in E;
      apply download_image_stored in E as (status & content & Hget & _ & Hf)
  end.
  cbn [imageUrl localPath]. rewrite join_save_dir. eauto 10.
Qed.

Lemma process_item_success_has_file_witness :
  exists url f status content,
    VStr apple_url = VStr url
    /\ VStr "scripts/minecraft_items/Apple_Apple.png" = VStr (in_save_dir f)
    /\ http_get (apple_remote (VStr apple_url) (Response 200 "PNG-bytes")) url
       = Response status content
    /\ files (snd (process_item (fun s => s) (fun _ => "")
                     (apple_remote (VStr apple_url) (Response 200 "PNG-bytes"))
                     apple true empty_world))
         !! in_save_dir f
       = Some content.
Proof.
  apply (process_item_success_has_file (fun s => s) (fun _ => "")
           (apple_remote (VStr apple_url) (Response 200 "PNG-bytes"))
           apple empty_world _
           {| name := VStr "Apple"; imageUrl := VStr apple_url;
              localPath := VStr "scripts/minecraft_items/Apple_Apple.png" |}).
  reflexivity.
Defined.

(** ** Further properties of the paginated lister *)

Section ListerMore.

Lemma get_item_list_loop_soft r fuel : forall items continue_token w,
  exists o w',
    get_item_list_loop r fuel items continue_token w = (Ok o, w')
    /\ files w' = files w
    /\ (w' = w \/ exists e, w' = logged ERROR (MsgListError e) w).
Proof.
  induction fuel as [|fuel IH]; intros items tok w; cbn [get_item_list_loop].
  - exists None, w. repeat split. now left.
  - destruct (api_get r (CategoryMembers (request_token tok))) as [data|e];
      [|exists (Some items), (logged ERROR (MsgListError e) w);
        repeat split; right; eauto].
    destruct (page_members data) as [members|e];
      [|exists (Some items), (logged ERROR (MsgListError e) w);
        repeat split; right; eauto].
    destruct (page_continue data) as [[token|]|e].
    + apply IH.
    + exists (Some (items ++ members)), w. repeat split. now left.
    + exists (Some (items ++ members)), (logged ERROR (MsgListError e) w).
      repeat split. right. eauto.
Qed.


End ListerMore.

(** X11. [get_item_list] never raises, whatever the wiki answers and
    however long it is followed: it touches no file and logs at most one
    error record, the one of the failure that ended the listing. *)
Theorem get_item_list_fails_soft (r : remote) (fuel : nat) (w : world) :
  exists o w',
    get_item_list r fuel w = (Ok o, w')
    /\ files w' = files w
    /\ (w' = w \/ exists e, w' = logged ERROR (MsgListError e) w).
Proof. apply get_item_list_loop_soft. Qed.

(** X13. A continuation token that is empty (or any other false value)
    is not sent back: the next request is the first one again. Against a
    wiki that answers equal requests equally the listing then never ends,
    whatever fuel it is given. *)
Theorem get_item_list_empty_token_never_ends
    (r : remote) (data token : value) (members : list value)
    (fuel : nat) (w : world) :
  api r (CategoryMembers None) = Json data ->
  page_members data = Ok members ->
  page_continue data = Ok (Some token) ->
  Py.truthy token = false ->
  get_item_list r fuel w = (Ok None, w).
Proof.
  intros Hreply Hmem Hcont Hfalsy. unfold get_item_list.
  now apply (get_item_list_loop_stuck r data members token).
Qed.

Lemma get_item_list_empty_token_never_ends_witness :
  get_item_list
    {| api := fun _ =>
         Json (VDict [("continue", VDict [("cmcontinue", VStr "")]);
                      ("query", VDict [("categorymembers", VList [apple])])]);
       http_get := fun _ => NoResponse;
       disk := fun _ => Written |}
    1000 empty_world
  = (Ok None, empty_world).
Proof.
  apply (get_item_list_empty_token_never_ends _
           (VDict [("continue", VDict [("cmcontinue", VStr "")]);
                   ("query", VDict [("categorymembers", VList [apple])])])
           (VStr "") [apple] 1000 empty_world);
    reflexivity.
Defined.



(** ** Further properties of the pool and of a whole run *)

Section RunMore.

Variable unquote : string -> string.
Variable repr : value -> string.

Lemma as_completed_nil order : as_completed [] order = [].
Proof.
  unfold as_completed. induction order as [|i order IH]; [reflexivity|].
  cbn. exact IH.
Qed.

Lemma collect_world dl futures : forall items_info s f w res w',
  collect dl futures items_info s f w = (res, w') -> files w' = files w.
Proof.
  induction futures as [|[item outcome] futures IH];
    intros items_info s f w res w' H; cbn [collect] in H.
  - now injection H as <- <-.
  - unfold bind at 1, lift at 1 in H.
    destruct outcome as [[b info]|e]; [|now injection H as <- <-].
    cbn [fst snd] in H. destruct b.
    + unfold bind at 1, logging at 1 in H. now apply IH in H.
    + unfold bind at 1, lift at 1 in H.
      destruct (Py.getitem item "title") as [title|e];
        [|now injection H as <- <-].
      unfold bind at 1, logging at 1 in H. now apply IH in H.
Qed.

(** What the collecting loop returns: the results of the futures in order,
    each counted once, on the side its flag says. *)
Lemma collect_tally dl futures : forall items_info s f w infos s' f' w',
  collect dl futures items_info s f w = (Ok (infos, s', f'), w') ->
  exists results,
    map snd futures = map Ok results
    /\ infos = items_info ++ map snd results
    /\ s' = (s + List.length (List.filter fst results))%nat
    /\ f' = (f + List.length (List.filter (fun x => negb (fst x)) results))%nat.
Proof.
  induction futures as [|[item outcome] futures IH];
    intros items_info s f w infos s' f' w' H; cbn [collect] in H.
  - injection H as <- <- <- <-. exists []. cbn.
    rewrite app_nil_r. repeat split; lia.
  - unfold bind at 1, lift at 1 in H.
    destruct outcome as [[b info]|e]; [|discriminate H].
    cbn [fst snd] in H. destruct b.
    + unfold bind at 1, logging at 1 in H.
      apply IH in H as (results & Hmap & -> & -> & ->).
      exists ((true, info) :: results). cbn. rewrite Hmap, <- app_assoc.
      repeat split; lia.
    + unfold bind at 1, lift at 1 in H.
      destruct (Py.getitem item "title") as [title|e]; [|discriminate H].
      unfold bind at 1, logging at 1 in H.
      apply IH in H as (results & Hmap & -> & -> & ->).
      exists ((false, info) :: results). cbn. rewrite Hmap, <- app_assoc.
      repeat split; lia.
Qed.

(** The flag of a returned task against the catalog filter. *)
Lemma process_item_flag r item dl w b info w' :
  process_item unquote repr r item dl w = (Ok (b, info), w') ->
  (b = true -> Py.is_none (imageUrl info) = false)
  /\ (dl = false -> b = negb (Py.is_none (imageUrl info))).
Proof.
  unfold process_item, bind, lift, ret, raise. intros H.
  repeat case_match; simplify_eq; cbn [imageUrl];
    (split; [intros Hb | intros Hdl]); try discriminate; try reflexivity;
    match goal with
    | Ht : Py.truthy ?u = true |- _ => destruct u; cbn in *; congruence
    end.
Qed.

Lemma successful_items_count (results : list (bool * item_info)) :
  Forall (fun x => fst x = true -> Py.is_none (imageUrl (snd x)) = false)
         results ->
  (List.length (List.filter fst results)
   <= List.length (successful_items (map snd results)))%nat.
Proof.
  induction 1 as [|[b info] results Hx _ IH]; [reflexivity|].
  cbn [List.filter map fst snd successful_items] in *.
  destruct b; cbn [fst snd] in *.
  - rewrite Hx by reflexivity. cbn. fold (successful_items (map snd results)).
    lia.
  - destruct (negb (Py.is_none (imageUrl info))); cbn;
      fold (successful_items (map snd results)); lia.
Qed.

Lemma successful_items_count_exact (results : list (bool * item_info)) :
  Forall (fun x => fst x = negb (Py.is_none (imageUrl (snd x)))) results ->
  List.length (successful_items (map snd results))
  = List.length (List.filter fst results).
Proof.
  induction 1 as [|[b info] results Hx _ IH]; [reflexivity|].
  cbn [List.filter map fst snd successful_items] in *. subst b.
  destruct (negb (Py.is_none (imageUrl info))); cbn;
    fold (successful_items (map snd results)); lia.
Qed.

Lemma run_tasks_world_metadata r (items : list value) : forall w futures w',
  run_tasks unquote repr r false items w = (futures, w') ->
  files w' = files w.
Proof.
  induction items as [|item items IH]; intros w futures w' H; cbn in H.
  - now injection H as <- <-.
  - destruct (process_item unquote repr r item false w) as [outcome w1] eqn:E.
    destruct (run_tasks unquote repr r false items w1) as [futs w2] eqn:E'.
    injection H as <- <-. rewrite (IH _ _ _ E').
    apply process_item_world in E
      as [Hsame | (x & url & w3 & res' & Hdl & _)];
      [exact Hsame | discriminate Hdl].
Qed.

Lemma save_items_json_other_files r items_info w res w' :
  save_items_json r items_info w = (res, w') ->
  forall p, p <> json_path -> files w' !! p = files w !! p.
Proof.
  unfold save_items_json, try_except, bind, write_file, logging.
  intros H p Hp.
  destruct (disk r json_path); injection H as <- <-; cbn [files set_file];
    try reflexivity; now apply lookup_insert_ne.
Qed.

Lemma process_all_world_metadata r items order w res w' :
  process_all unquote repr r items false order w = (res, w') ->
  files w' = files w.
Proof.
  unfold process_all. intros H.
  destruct (run_tasks unquote repr r false (as_completed items order) w)
    as [futures w1] eqn:E.
  apply run_tasks_world_metadata in E. apply collect_world in H. congruence.
Qed.

Lemma get_item_list_world r fuel w res w' :
  get_item_list r fuel w = (res, w') -> files w' = files w.
Proof.
  intros H.
  destruct (get_item_list_loop_soft r fuel [] VNone w) as (o & w2 & Hrun & Hf & _).
  unfold get_item_list in H. rewrite H in Hrun. now injection Hrun as _ <-.
Qed.

Lemma futures_results r dl (results : list (bool * item_info)) :
  forall (items : list value) (futures : list future),
  Forall2 (fun item (fut : future) =>
             fst fut = item
             /\ exists w0,
                  snd fut = fst (process_item unquote repr r item dl w0))
          items futures ->
  map snd futures = map Ok results ->
  Forall (fun x => exists item w0 w1,
            process_item unquote repr r item dl w0 = (Ok x, w1)) results.
Proof.
  induction results as [|x results IH]; intros items futures HF Hmap;
    [constructor|].
  destruct HF as [|item fut items futures [_ [w0 Hsnd]] HF];
    [discriminate Hmap|].
  cbn in Hmap. injection Hmap as Hx Hmap. constructor.
  - exists item, w0.
    destruct (process_item unquote repr r item dl w0) as [o w1] eqn:E.
    exists w1. cbn in Hsnd. congruence.
  - apply (IH items futures HF Hmap).
Qed.

End RunMore.

(** X15. When the listing yields no item, because the category is empty or
    because the very first request fails, [main] still runs to its end,
    provided the download directory, if asked for, can be had: it
    overwrites the catalog with an empty array, logs that it found no
    item, saved the catalog, and counted no success and no failure, and
    leaves every file other than the catalog and the log file as it
    was. *)
Theorem main_empty_listing_empties_catalog
    (unquote : string -> string) (repr : value -> string)
    (r : remote) (fuel : nat) (schedule : nat -> list nat)
    (download_files : bool) (w w1 : world) :
  (download_files = true -> disk r SAVE_DIR <> OpenFails) ->
  get_item_list r fuel (logged INFO MsgListing w) = (Ok (Some []), w1) ->
  disk r json_path = Written ->
  exists w',
    main unquote repr r fuel schedule download_files w
    = (Ok (Some ([], 0%nat, 0%nat)), w')
    /\ files w' !! json_path = Some "[]"
    /\ log w'
       = log w1 ++ [(INFO, MsgFound 0); (INFO, MsgCatalogSaved json_path);
                    (INFO, MsgSummary 0 0 0)]
    /\ forall p, p <> json_path -> p <> LOG_FILE ->
         files w' !! p = files w !! p.
Proof.
  intros Hdir Hlist Hdisk.
  rewrite (main_stages unquote repr r fuel schedule download_files w Hdir).
  rewrite Hlist.
  unfold process_all. rewrite as_completed_nil. cbn [run_tasks collect ret].
  cbn [fst snd]. rewrite (save_items_json_written r [] _ Hdisk).
  eexists. split; [reflexivity|]. cbn [files log logged].
  apply get_item_list_world in Hlist. cbn [files logged] in Hlist.
  split; [apply lookup_insert_eq|].
  split; [now rewrite <- !app_assoc|].
  intros p Hp _. rewrite lookup_insert_ne by congruence. now rewrite Hlist.
Qed.

Lemma main_empty_listing_empties_catalog_witness :
  exists w',
    main (fun s => s) (fun _ => "")
         {| api := fun _ => Unreachable;
            http_get := fun _ => NoResponse;
            disk := fun _ => Written |}
         1 (fun n => seq 0 n) true
         {| files := {[ json_path := "stale" ]}; log := [] |}
    = (Ok (Some ([], 0%nat, 0%nat)), w')
    /\ files w' !! json_path = Some "[]"
    /\ log w'
       = [(INFO, MsgListing); (ERROR, MsgListError RequestException);
          (INFO, MsgFound 0); (INFO, MsgCatalogSaved json_path);
          (INFO, MsgSummary 0 0 0)]
    /\ files w' !! "notes.txt"
       = files {| files := {[ json_path := "stale" ]}; log := [] |}
           !! "notes.txt".
Proof.
  destruct (main_empty_listing_empties_catalog (fun s => s) (fun _ => "")
              {| api := fun _ => Unreachable;
                 http_get := fun _ => NoResponse;
                 disk := fun _ => Written |}
              1%nat (fun n => seq 0 n) true
              {| files := {[ json_path := "stale" ]}; log := [] |}
              (logged ERROR (MsgListError RequestException)
                 (logged INFO MsgListing
                    {| files := {[ json_path := "stale" ]}; log := [] |}))
              ltac:(discriminate) eq_refl eq_refl)
    as (w' & Hrun & Hjson & Hlog & Hframe).
  exists w'. split; [exact Hrun|]. split; [exact Hjson|].
  split; [exact Hlog|].
  apply Hframe; [vm_compute|]; discriminate.
Defined.

(** X17. In what the pool returns, every result is counted once, as a
    success or as a failure, and every success has an [imageUrl], so the
    catalog never holds fewer entries than there are successes. With
    download disabled the two agree: the catalog holds exactly as many
    entries as items were counted successful. *)
Theorem process_all_counts
    (unquote : string -> string) (repr : value -> string)
    (r : remote) (items : list value) (download_files : bool)
    (order : list nat) (w w' : world)
    (infos : list item_info) (s f : nat) :
  process_all unquote repr r items download_files order w
  = (Ok (infos, s, f), w') ->
  List.length infos = (s + f)%nat
  /\ (s <= List.length (successful_items infos))%nat
  /\ (download_files = false -> List.length (successful_items infos) = s).
Proof.
  unfold process_all. intros H.
  destruct (run_tasks unquote repr r download_files
              (as_completed items order) w) as [futures w1] eqn:E.
  apply run_tasks_futures in E.
  apply collect_tally in H as (results & Hmap & -> & -> & ->).
  pose proof (futures_results unquote repr r download_files results _ _ E Hmap)
    as Hres.
  cbn [app Nat.add]. split; [|split].
  - rewrite length_map. clear. induction results as [|[[] info] results IH];
      cbn; lia.
  - apply successful_items_count. eapply Forall_impl; [exact Hres|].
    intros [b info] (item & w0 & w2 & Hrun). cbn [fst snd].
    apply (process_item_flag unquote repr _ _ _ _ _ _ _ Hrun).
  - intros ->. apply successful_items_count_exact.
    eapply Forall_impl; [exact Hres|].
    intros [b info] (item & w0 & w2 & Hrun). cbn [fst snd].
    now apply (process_item_flag unquote repr _ _ _ _ _ _ _ Hrun).
Qed.

Lemma process_all_counts_witness :
  List.length
    [{| name := VStr "Bow"; imageUrl := VNone; localPath := VNone |};
     {| name := VStr "Apple"; imageUrl := VStr apple_url;
        localPath := VNone |}]
  = (1 + 1)%nat
  /\ (1 <= List.length
             (successful_items
                [{| name := VStr "Bow"; imageUrl := VNone;
                    localPath := VNone |};
                 {| name := VStr "Apple"; imageUrl := VStr apple_url;
                    localPath := VNone |}]))%nat
  /\ (false = false ->
      List.length
        (successful_items
           [{| name := VStr "Bow"; imageUrl := VNone; localPath := VNone |};
            {| name := VStr "Apple"; imageUrl := VStr apple_url;
               localPath := VNone |}])
      = 1%nat).
Proof.
  apply (process_all_counts (fun s => s) (fun _ => "")
           (apple_remote (VStr apple_url) NoResponse)
           [apple; bow] false [1; 0]%nat empty_world
           (snd (process_all (fun s => s) (fun _ => "")
                   (apple_remote (VStr apple_url) NoResponse)
                   [apple; bow] false [1; 0]%nat empty_world))).
  reflexivity.
Defined.

(** X18. With download disabled a run writes nothing but the catalog and
    the log file: however [main] ends, every other file is as it was. *)
Theorem main_metadata_only_writes_catalog_only
    (unquote : string -> string) (repr : value -> string)
    (r : remote) (fuel : nat) (schedule : nat -> list nat)
    (w w' : world) (res : res (option tally)) :
  main unquote repr r fuel schedule false w = (res, w') ->
  forall p, p <> json_path -> p <> LOG_FILE ->
    files w' !! p = files w !! p.
Proof.
  intros H p Hp _.
  rewrite main_stages in H by discriminate.
  destruct (get_item_list r fuel (logged INFO MsgListing w))
    as [[[items|]|e] w1] eqn:Hlist;
    apply get_item_list_world in Hlist; cbn [files logged] in Hlist;
    try (injection H as <- <-; now rewrite Hlist).
  destruct (process_all unquote repr r items false
              (schedule (List.length items))
              (logged INFO (MsgFound (List.length items)) w1))
    as [[t|e] w2] eqn:Hpool;
    apply process_all_world_metadata in Hpool; cbn [files logged] in Hpool;
    [|injection H as <- <-; congruence].
  destruct (save_items_json r (fst (fst t)) w2) as [[[]|e] w3] eqn:Hsave;
    apply save_items_json_other_files with (p := p) in Hsave; try exact Hp;
    injection H as <- <-; cbn [files logged]; congruence.
Qed.

Lemma main_metadata_only_writes_catalog_only_witness :
  files (snd (main (fun s => s) (fun _ => "")
                (apple_remote (VStr apple_url) NoResponse)
                1 (fun n => seq 0 n) false
                {| files := {[ "notes.txt" := "keep" ]}; log := [] |}))
    !! "notes.txt"
  = files {| files := {[ "notes.txt" := "keep" ]}; log := [] |} !! "notes.txt".
Proof.
  apply (main_metadata_only_writes_catalog_only (fun s => s) (fun _ => "")
           (apple_remote (VStr apple_url) NoResponse)
           1%nat (fun n => seq 0 n)
           {| files := {[ "notes.txt" := "keep" ]}; log := [] |}
           (snd (main (fun s => s) (fun _ => "")
                   (apple_remote (VStr apple_url) NoResponse)
                   1 (fun n => seq 0 n) false
                   {| files := {[ "notes.txt" := "keep" ]}; log := [] |}))
           (fst (main (fun s => s) (fun _ => "")
                   (apple_remote (VStr apple_url) NoResponse)
                   1 (fun n => seq 0 n) false
                   {| files := {[ "notes.txt" := "keep" ]}; log := [] |}))).
  - reflexivity.
  - vm_compute. discriminate.
  - discriminate.
Defined.

Section RunCompletes.

Variable unquote : string -> string.
Variable repr : value -> string.

Lemma save_items_json_returns r items_info w :
  exists w', save_items_json r items_info w = (Ok tt, w').
Proof.
  unfold save_items_json, try_except, bind, write_file, logging.
  destruct (disk r json_path); eauto.
Qed.

Lemma get_image_url_returns r image_title w :
  exists v w', get_image_url r image_title w = (Ok v, w').
Proof.
  unfold get_image_url, try_except, bind, lift, ret, logging.
  destruct (find_url r image_title); eauto.
Qed.

End RunCompletes.

(** X19. A task can raise in two ways only: [item['title']] raises, on an
    item without a title; or, with download enabled, the URL found is a
    true value that is no string, on which [unquote] raises. Everything
    else that goes wrong inside a task ends in a returned failure. *)
Theorem process_item_raises_only_two_ways
    (unquote : string -> string) (repr : value -> string)
    (r : remote) (item : value) (download_files : bool)
    (w w' : world) (e : exn) :
  process_item unquote repr r item download_files w = (Raise e, w') ->
  Py.getitem item "title" = Raise e
  \/ (download_files = true
      /\ exists image_title url w1,
           get_image_url r image_title w1 = (Ok url, w')
           /\ Py.truthy url = true
           /\ forall s, url <> VStr s).
Proof.
  intros H.
  destruct (Py.getitem item "title") as [title|e0] eqn:Htitle.
  - right. revert H.
    unfold process_item, bind at 1.
    destruct (get_item_image r item w) as [[image_title|e1] w1] eqn:Himg.
    2:{ unfold get_item_image, bind, lift, try_except in Himg.
        rewrite Htitle in Himg. revert Himg.
        repeat case_match; discriminate. }
    unfold bind at 1, lift at 1. rewrite Htitle.
    destruct (Py.truthy image_title); [|discriminate].
    unfold bind at 1.
    destruct (get_image_url r image_title w1) as [[url|e2] w2] eqn:Hurl.
    2:{ destruct (get_image_url_returns r image_title w1) as (v & w3 & Hr).
        congruence. }
    destruct (Py.truthy url) eqn:Htruthy; [|discriminate].
    destruct download_files; [|discriminate].
    unfold bind at 1, lift at 1.
    destruct url as [| | |u| |];
      try (intros H;
           assert (Hw : w2 = w')
             by (destruct (unquote_value _ _); unfold raise in H; congruence);
           subst w'; split; [reflexivity|];
           exists image_title; eexists; exists w1;
           split; [exact Hurl|]; split; [exact Htruthy | discriminate]).
    cbn [unquote_value]. unfold bind at 1.
    destruct (download_image r u _ w2) as [[[]|e3] w3] eqn:Hdl;
      try discriminate.
    destruct (download_image_returns r u
                (Path.join SAVE_DIR
                   (sanitize_filename
                      (format repr title +:+ "_" +:+ Path.basename (unquote u))))
                w2) as (b & w4 & Hr).
    congruence.
  - left. revert H. unfold process_item, get_item_image, bind, lift.
    rewrite Htitle. intros H. now injection H as <- _.
Qed.

Lemma process_item_raises_only_two_ways_witness :
  Py.getitem apple "title" = Raise TypeError
  \/ (true = true
      /\ exists image_title url w1,
           get_image_url numeric_url_remote image_title w1
           = (Ok url, empty_world)
           /\ Py.truthy url = true
           /\ forall s, url <> VStr s).
Proof.
  apply (process_item_raises_only_two_ways (fun s => s) (fun _ => "")
           numeric_url_remote apple true empty_world empty_world TypeError).
  reflexivity.
Defined.

(** X20. With download disabled, a listing whose entries all carry a title
    cannot make the run abort: [main] runs to its end and returns one
    result per listed item, each counted as a success or a failure. *)
Theorem main_metadata_only_completes
    (unquote : string -> string) (repr : value -> string)
    (r : remote) (fuel : nat) (schedule : nat -> list nat)
    (w w1 : world) (items : list value) :
  get_item_list r fuel (logged INFO MsgListing w) = (Ok (Some items), w1) ->
  Forall (fun item => exists title, Py.getitem item "title" = Ok title)
         items ->
  schedule (List.length items) ≡ₚ seq 0 (List.length items) ->
  exists infos s f w',
    main unquote repr r fuel schedule false w = (Ok (Some (infos, s, f)), w')
    /\ List.length infos = List.length items
    /\ (s + f = List.length items)%nat.
Proof.
  intros Hlist Htitles Hperm.
  rewrite main_stages by discriminate. rewrite Hlist.
  pose proof (as_completed_Permutation items _ Hperm) as Hdone.
  unfold process_all at 1.
  destruct (run_tasks unquote repr r false
              (as_completed items (schedule (List.length items)))
              (logged INFO (MsgFound (List.length items)) w1))
    as [futures w2] eqn:E.
  apply run_tasks_futures in E.
  destruct (futures_returned unquote repr r false _ _ E) as [Hmap Hall].
  { intros item w0 Hin.
    assert (Hin' : In item items).
    { apply list_elem_of_In. rewrite <- Hdone. now apply list_elem_of_In. }
    rewrite Forall_forall in Htitles.
    destruct (Htitles item) as [title Ht]; [now apply list_elem_of_In|].
    apply (process_item_returns_without_download unquote repr r item title w0 Ht). }
  destruct (collect_returns false futures Hall [] 0%nat 0%nat w2)
    as (gathered & s & f & w3 & Hrun & Hnames & Hcount & _).
  rewrite Hrun. cbn [fst snd app].
  destruct (save_items_json_returns r gathered w3) as [w4 Hsave].
  rewrite Hsave.
  assert (Hlen : List.length futures = List.length items).
  { rewrite <- (Permutation_length Hdone), <- Hmap. now rewrite length_map. }
  exists gathered, s, f. eexists. split; [reflexivity|]. split.
  - rewrite <- Hlen. symmetry. apply (Forall2_length _ _ _ Hnames).
  - lia.
Qed.

Lemma main_metadata_only_completes_witness :
  exists infos s f w',
    main (fun s => s) (fun _ => "")
         (three_page_remote (Json (members_response [cake])))
         3 (fun n => rev (seq 0 n)) false empty_world
    = (Ok (Some (infos, s, f)), w')
    /\ List.length infos = 3%nat
    /\ (s + f = 3)%nat.
Proof.
  apply (main_metadata_only_completes (fun s => s) (fun _ => "")
           (three_page_remote (Json (members_response [cake])))
           3%nat (fun n => rev (seq 0 n)) empty_world
           (logged INFO MsgListing empty_world) [apple; bow; cake]).
  - reflexivity.
  - repeat constructor; eexists; reflexivity.
  - apply (bool_decide_unpack _). vm_compute. exact I.
Defined.
